(** * State synchronizer of py-evm ([p2p/state.py])

    A shallow embedding of [StateDownloader] and [StateSync] and the
    properties of the request/response bookkeeping: the in-flight table
    [_pending_nodes], the peer-busy table [_peers_with_pending_requests],
    the progress counters, the idle-peer picker, the request dispatcher,
    the reply handler, the timeout sweeper and the account leaf callback.

    Python dictionaries are finite maps ([gmap]); coroutines are
    computations in a state-and-exception monad over a [World] holding
    the downloader object, a counter of the interactions with the run
    time (clock readings, random draws, suspensions) and the trace of
    the externally visible calls made so far. *)

From Stdlib Require Import ZArith QArith Qround.
From Stdlib.Strings Require Import Byte.
From stdpp Require Import base option list strings gmap.

Set Default Proof Using "Type".

(** ** Byte strings *)

Abbreviation bytes := (list byte).

#[global] Instance byte_eq_dec : EqDecision byte := Byte.byte_eq_dec.
#[global] Instance byte_countable : Countable byte :=
  inj_countable Byte.to_N Byte.of_N Byte.of_to_N.

(** ** Constants *)

(** Modelled from the spec: [evm.constants.BLANK_ROOT_HASH], the
    [EMPTY_TRIE_ROOT] of section 6,
    0x56e81f171bcc55a6ff8345e692c0f86e5b48e01b996cadc001622fb5e363b421. *)
Definition BLANK_ROOT_HASH : bytes :=
  [x56; xe8; x1f; x17; x1b; xcc; x55; xa6; xff; x83; x45; xe6; x92; xc0; xf8; x6e;
   x5b; x48; xe0; x1b; x99; x6c; xad; xc0; x01; x62; x2f; xb5; xe3; x63; xb4; x21].

(** Modelled from the spec: [evm.constants.EMPTY_SHA3], the
    [EMPTY_BYTES_HASH] of section 6,
    0xc5d2460186f7233c927e7db2dcc703c0e500b653ca82273b7bfad8045d85a470. *)
Definition EMPTY_SHA3 : bytes :=
  [xc5; xd2; x46; x01; x86; xf7; x23; x3c; x92; x7e; x7d; xb2; xdc; xc7; x03; xc0;
   xe5; x00; xb6; x53; xca; x82; x27; x3b; x7b; xfa; xd8; x04; x5d; x85; xa4; x70].

(** ** The worker pool of [StateDownloader.__init__] *)

Module Executor.

(** The argument handed to [ProcessPoolExecutor]: [os_cpu_count] is the
    result of [os.cpu_count()], [None] when the number of CPUs is
    indeterminable. *)
Definition cpu_count (os_cpu_count : option Z) : Z :=
  match os_cpu_count with
  | None => 1
  | Some n => n - 1
  end.

End Executor.

(** ** The account leaf callback of [StateSync] *)

Module StateSync.

(** [evm.rlp.accounts.Account]. *)
Record Account := {
  nonce : Z;
  balance : Z;
  storage_root : bytes;
  code_hash : bytes;
}.

(** The leaf hooks a request can carry; [StateSync] only ever passes
    [leaf_callback=None]. *)
Inductive LeafCallback := AccountLeafCallback.

(** One call [self.schedule(node_key, parent, depth, leaf_callback, is_raw)]
    of [HexaryTrieSync.schedule], whose [is_raw] defaults to [False]. *)
Record ScheduleCall {Request : Type} := {
  sc_node_key : bytes;
  sc_parent : Request;
  sc_depth : Z;
  sc_leaf_callback : option LeafCallback;
  sc_is_raw : bool;
}.
Arguments ScheduleCall : clear implicits.

Section leaf_callback.
Context {Request : Type}.
(** [rlp.decode(data, sedes=Account)]; [None] stands for the decoding
    error it raises on a value that is not an account. *)
Context (rlp_decode_account : bytes → option Account).

Definition schedule (node_key : bytes) (parent : Request) (depth : Z)
    (leaf_callback : option LeafCallback) (is_raw : bool)
    (calls : list (ScheduleCall Request)) : list (ScheduleCall Request) :=
  calls ++ [{| sc_node_key := node_key; sc_parent := parent; sc_depth := depth;
               sc_leaf_callback := leaf_callback; sc_is_raw := is_raw |}].

(** [StateSync.leaf_callback(data, parent)]: the calls of [schedule] it
    makes, in order; [None] when decoding raises. *)
Definition leaf_callback (data : bytes) (parent : Request)
    : option (list (ScheduleCall Request)) :=
  let depth := 64%Z in
  account ← rlp_decode_account data;
  let calls := [] in
  let calls :=
    if decide (storage_root account ≠ BLANK_ROOT_HASH)
    then schedule (storage_root account) parent depth None false calls
    else calls in
  let calls :=
    if decide (code_hash account ≠ EMPTY_SHA3)
    then schedule (code_hash account) parent depth None true calls
    else calls in
  Some calls.
End leaf_callback.

End StateSync.

(** ** [cytoolz.itertoolz.partition_all] *)

Fixpoint partition_all_aux {A} (fuel n : nat) (seq : list A) : list (list A) :=
  match fuel, seq with
  | _, [] => []
  | 0, _ :: _ => []
  | S fuel, _ :: _ => take n seq :: partition_all_aux fuel n (drop n seq)
  end.

(** [partition_all(n, seq)] for [n > 0]: consecutive chunks of length [n],
    the last one possibly shorter.  Every chunk removes at least one
    element, so [length seq] rounds are enough. *)
Definition partition_all {A} (n : nat) (seq : list A) : list (list A) :=
  partition_all_aux (length seq) n seq.

(** ** The downloader

    Calls of the logger are left out: they change nothing the coroutines
    read.  [_pending_nodes] is an attribute of the class, shared by all
    its instances; a single downloader is followed here. *)

Module StateDownloader.

Inductive Exn :=
| SyncRequestAlreadyProcessed
| OperationCancelled
| IndexError
| OtherException (name : string).

#[global] Instance Exn_eq_dec : EqDecision Exn.
Proof. solve_decision. Defined.

(** [isinstance(cmd, eth.NodeData)] only tells [NodeData] from the rest. *)
Inductive Command :=
| NodeData
| OtherCommand (cmd_id : nat).

(** The class attribute [_reply_timeout = 20], in seconds. *)
Definition _reply_timeout : Q := 20.

(** What the module imports and does not define: the floats that
    [time.time()] returns, with their subtraction, addition and
    comparisons ([time_of_Q] is the float of a numeric literal), peers
    (hashable objects), [keccak], the protocol constant
    [eth.MAX_STATE_FETCH] and the scheduler base class [HexaryTrieSync].
    [process sched items] is [sched.process(items)]: the exception it
    raises, if any, and the scheduler afterwards. *)
Class Externals := {
  Time : Type;
  time_of_Q : Q → Time;
  time_sub : Time → Time → Time;
  time_add : Time → Time → Time;
  time_gt : Time → Time → bool;
  time_lt : Time → Time → bool;
  Peer : Type;
  Peer_eq_dec :: EqDecision Peer;
  Peer_countable :: Countable Peer;
  keccak : bytes → bytes;
  MAX_STATE_FETCH : nat;
  Scheduler : Type;
  process : Scheduler → list (bytes * bytes) → option Exn * Scheduler;
}.

Section downloader.
Context `{Ext : Externals}.

(** The attributes of a [StateDownloader] that its coroutines read and
    write; [peers] is [self.peer_pool.peers]. *)
Record Downloader := {
  peers : list Peer;
  scheduler : Scheduler;
  _pending_nodes : gmap bytes Time;
  _peers_with_pending_requests : gmap Peer Time;
  _total_processed_nodes : nat;
  _total_timeouts : nat;
}.

Inductive Event :=
| EvSleep (delay : Time)
| EvHash (blobs : list bytes)
| EvProcess (items : list (bytes * bytes))
| EvSend (peer : Peer) (batch : list bytes).

(** [tick] counts the interactions with the run time so far. *)
Record World := {
  self : Downloader;
  tick : nat;
  trace : list Event;
}.

(** The run time, indexed by interaction: the reading of the clock, the
    random number drawn, what the other coroutines of the event loop
    do to the downloader while this one is suspended, and whether the
    cancel token has been triggered by then. *)
Class Runtime := {
  clock : nat → Time;
  random : nat → nat;
  interleave : nat → Downloader → Downloader;
  token_triggered : nat → bool;
}.

(** How far a coroutine gets: it returns, it raises, or it is still
    waiting when the model stops following it. *)
Inductive Outcome (A : Type) :=
| Returned (a : A) (w : World)
| Raised (e : Exn) (w : World)
| Suspended (w : World).
Arguments Returned {A}.
Arguments Raised {A}.
Arguments Suspended {A}.

Definition Coro (A : Type) := World → Outcome A.

Definition ret {A} (a : A) : Coro A := λ w, Returned a w.

Definition bind {A B} (c : Coro A) (k : A → Coro B) : Coro B :=
  λ w, match c w with
       | Returned a w' => k a w'
       | Raised e w' => Raised e w'
       | Suspended w' => Suspended w'
       end.

(** [try: c  except e: handler]. *)
Definition try_except {A} (c : Coro A) (e : Exn) (handler : Coro A) : Coro A :=
  λ w, match c w with
       | Raised e' w' => if decide (e' = e) then handler w' else Raised e' w'
       | o => o
       end.

Definition get_self : Coro Downloader := λ w, Returned (self w) w.

Definition update (f : Downloader → Downloader) : Coro unit :=
  λ w, Returned tt {| self := f (self w); tick := tick w; trace := trace w |}.

Definition emit (ev : Event) : Coro unit :=
  λ w, Returned tt {| self := self w; tick := tick w; trace := trace w ++ [ev] |}.

#[global] Instance Coro_ret : MRet Coro := @ret.
#[global] Instance Coro_bind : MBind Coro := λ A B k c, bind c k.

Fixpoint for_each {X} (xs : list X) (body : X → Coro unit) : Coro unit :=
  match xs with
  | [] => ret tt
  | x :: xs => body x ;; for_each xs body
  end.

Definition set_scheduler (s : Scheduler) (d : Downloader) : Downloader :=
  {| peers := peers d; scheduler := s;
     _pending_nodes := _pending_nodes d;
     _peers_with_pending_requests := _peers_with_pending_requests d;
     _total_processed_nodes := _total_processed_nodes d;
     _total_timeouts := _total_timeouts d |}.

Definition set_pending_nodes (m : gmap bytes Time) (d : Downloader) : Downloader :=
  {| peers := peers d; scheduler := scheduler d;
     _pending_nodes := m;
     _peers_with_pending_requests := _peers_with_pending_requests d;
     _total_processed_nodes := _total_processed_nodes d;
     _total_timeouts := _total_timeouts d |}.

Definition set_peers_with_pending_requests (m : gmap Peer Time) (d : Downloader)
    : Downloader :=
  {| peers := peers d; scheduler := scheduler d;
     _pending_nodes := _pending_nodes d;
     _peers_with_pending_requests := m;
     _total_processed_nodes := _total_processed_nodes d;
     _total_timeouts := _total_timeouts d |}.

Definition set_total_processed_nodes (n : nat) (d : Downloader) : Downloader :=
  {| peers := peers d; scheduler := scheduler d;
     _pending_nodes := _pending_nodes d;
     _peers_with_pending_requests := _peers_with_pending_requests d;
     _total_processed_nodes := n;
     _total_timeouts := _total_timeouts d |}.

Definition set_total_timeouts (n : nat) (d : Downloader) : Downloader :=
  {| peers := peers d; scheduler := scheduler d;
     _pending_nodes := _pending_nodes d;
     _peers_with_pending_requests := _peers_with_pending_requests d;
     _total_processed_nodes := _total_processed_nodes d;
     _total_timeouts := n |}.

(** *** Interactions with the run time *)

Context `{RT : Runtime}.

Definition next_tick (w : World) : World :=
  {| self := self w; tick := S (tick w); trace := trace w |}.

(** The coroutine is suspended: the other coroutines run. *)
Definition resumed (w : World) : World :=
  {| self := interleave (tick w) (self w); tick := S (tick w); trace := trace w |}.

Definition suspend : Coro unit := λ w, Returned tt (resumed w).

Definition suspend_cancellable : Coro unit :=
  λ w, if token_triggered (tick w)
       then Raised OperationCancelled (resumed w)
       else Returned tt (resumed w).

(** [time.time()]. *)
Definition time_time : Coro Time :=
  λ w, Returned (clock (tick w)) (next_tick w).

(** [secrets.choice(seq)], that is [seq[randbelow(len(seq))]]; it raises
    [IndexError] on an empty sequence. *)
Definition secrets_choice {X} (seq : list X) : Coro X :=
  λ w, match seq !! (random (tick w) `mod` length seq) with
       | Some x => Returned x (next_tick w)
       | None => Raised IndexError w
       end.

(** [await loop.run_in_executor(self._executor, list, map(keccak, msg))]:
    the hashes are computed by the worker pool while the event loop
    runs the other coroutines. *)
Definition run_in_executor_keccak (msg : list bytes) : Coro (list bytes) :=
  emit (EvHash msg) ;; suspend ;; mret (keccak <$> msg).

(** Modelled from the spec: [BaseService.wait_first], defined in
    [p2p/service.py]; every suspension made through it is
    cancellation-aware and unblocks with [OperationCancelled] once the
    cancel token is triggered.  Here for
    [await self.wait_first(asyncio.sleep(delay))]. *)
Definition wait_first_sleep (delay : Time) : Coro unit :=
  emit (EvSleep delay) ;; suspend_cancellable.

Definition run_process (items : list (bytes * bytes)) : Coro unit :=
  λ w, let '(exn, sched) := process (scheduler (self w)) items in
       let w' := {| self := set_scheduler sched (self w);
                    tick := tick w; trace := trace w |} in
       match exn with
       | None => Returned tt w'
       | Some e => Raised e w'
       end.

(** [self.scheduler.process(items)]. *)
Definition scheduler_process (items : list (bytes * bytes)) : Coro unit :=
  emit (EvProcess items) ;; run_process items.

(** *** [idle_peers] and [get_idle_peer] *)

(** The property [idle_peers]; a Python set has no order of its own,
    the list is given in the order of [elements]. *)
Definition idle_peers (d : Downloader) : list Peer :=
  let peers : gset Peer := list_to_set (peers d) in
  elements (peers ∖ dom (_peers_with_pending_requests d)).

(** [get_idle_peer]; [fuel] bounds the number of times the loop sleeps:
    the outcome is [Suspended] when the idle set is still empty after
    [fuel] sleeps. *)
Fixpoint get_idle_peer (fuel : nat) : Coro Peer :=
  λ w, match idle_peers (self w) with
       | [] =>
           match fuel with
           | 0 => Suspended w
           | S fuel =>
               (wait_first_sleep (time_of_Q 0.02) ;; get_idle_peer fuel) w
           end
       | _ :: _ => secrets_choice (idle_peers (self w)) w
       end.

(** *** [_handle_msg] *)

(** The body of the loop over [zip(node_keys, msg)]. *)
Definition process_node (item : bytes * bytes) : Coro unit :=
  let '(node_key, node) := item in
  update (λ d, set_total_processed_nodes (_total_processed_nodes d + 1) d) ;;
  try_except (scheduler_process [(node_key, node)])
             SyncRequestAlreadyProcessed (mret tt) ;;
  update (λ d, set_pending_nodes (delete node_key (_pending_nodes d)) d).

(** [msg] is the payload of a [NodeData] message, a list of blobs; the
    payload of any other command is not looked at. *)
Definition _handle_msg (peer : Peer) (cmd : Command) (msg : list bytes) : Coro unit :=
  match cmd with
  | NodeData =>
      d ← get_self;
      (if decide (is_Some (_peers_with_pending_requests d !! peer))
       then update (λ d, set_peers_with_pending_requests
                           (delete peer (_peers_with_pending_requests d)) d)
       else mret tt) ;;
      node_keys ← run_in_executor_keccak msg;
      for_each (zip node_keys msg) process_node
  | OtherCommand _ => mret tt
  end.

(** *** [request_nodes] *)

Definition request_batch (fuel : nat) (batch : list bytes) : Coro unit :=
  peer ← get_idle_peer fuel;
  now ← time_time;
  for_each batch (λ node_key,
    update (λ d, set_pending_nodes (<[node_key := now]> (_pending_nodes d)) d)) ;;
  emit (EvSend peer batch) ;;
  update (λ d, set_peers_with_pending_requests
                 (<[peer := now]> (_peers_with_pending_requests d)) d).

Definition request_nodes (fuel : nat) (node_keys : list bytes) : Coro unit :=
  let batches := partition_all MAX_STATE_FETCH node_keys in
  for_each batches (request_batch fuel).

(** *** [_periodically_retry_timedout] *)

(** [now - req_time > self._reply_timeout]. *)
Definition timed_out_at (now req_time : Time) : bool :=
  time_gt (time_sub now req_time) (time_of_Q _reply_timeout).

(** The first loop of a pass, over a copy of the items of the table. *)
Definition drop_timed_out_peers (now : Time) (busy : gmap Peer Time) : gmap Peer Time :=
  foldl (λ busy '(peer, last_req_time),
           if timed_out_at now last_req_time then delete peer busy else busy)
        busy (map_to_list busy).

(** The second loop of a pass: [(oldest_request_time, timed_out)].  The
    keys come in the order of [map_to_list], not in the insertion order
    of the Python dictionary. *)
Definition collect_timed_out (now : Time) (pending : gmap bytes Time)
    : Time * list bytes :=
  foldl (λ '(oldest_request_time, timed_out) '(node_key, req_time),
           if timed_out_at now req_time then
             (oldest_request_time, timed_out ++ [node_key])
           else if time_lt req_time oldest_request_time then
             (req_time, timed_out)
           else (oldest_request_time, timed_out))
        (now, []) (map_to_list pending).

Inductive LoopControl := Continue | Break.

(** The end of a pass: sleep until the oldest request is due. *)
Definition sleep_until_due (oldest_request_time : Time) : Coro LoopControl :=
  now ← time_time;
  let sleep_duration :=
    time_sub (time_add oldest_request_time (time_of_Q _reply_timeout)) now in
  try_except (wait_first_sleep sleep_duration ;; mret Continue)
             OperationCancelled (mret Break).

(** What a pass does once [timed_out] is known. *)
Definition retry_and_sleep (fuel : nat) (oldest_request_time : Time)
    (timed_out : list bytes) : Coro LoopControl :=
  ctl ← (if decide (timed_out ≠ []) then
           update (λ d, set_total_timeouts (_total_timeouts d + length timed_out) d) ;;
           try_except (request_nodes fuel timed_out ;; mret Continue)
                      OperationCancelled (mret Break)
         else mret Continue);
  match ctl with
  | Break => mret Break
  | Continue => sleep_until_due oldest_request_time
  end.

(** The body of the [while self.is_running] loop: one pass, ending in
    [Break] where the source leaves the loop. *)
Definition retry_timedout_pass (fuel : nat) : Coro LoopControl :=
  now ← time_time;
  update (λ d, set_peers_with_pending_requests
                 (drop_timed_out_peers now (_peers_with_pending_requests d)) d) ;;
  d ← get_self;
  let '(oldest_request_time, timed_out) := collect_timed_out now (_pending_nodes d) in
  retry_and_sleep fuel oldest_request_time timed_out.

(** *** Notions used to state the properties *)

Definition world_of {A} (o : Outcome A) : World :=
  match o with
  | Returned _ w | Raised _ w | Suspended w => w
  end.

(** The downloader once the entry of [peer] is cleared. *)
Definition peer_cleared (peer : Peer) (d : Downloader) : Downloader :=
  set_peers_with_pending_requests (delete peer (_peers_with_pending_requests d)) d.

(** The world once the in-flight entry of [node_key] is removed. *)
Definition node_processed (node_key : bytes) (w : World) : World :=
  {| self := set_pending_nodes (delete node_key (_pending_nodes (self w))) (self w);
     tick := tick w; trace := trace w |}.


(** The event of handing one blob to the scheduler under its own hash. *)
Definition processed_under_own_hash (blob : bytes) : Event :=
  EvProcess [(keccak blob, blob)].


(** Section 4.2 of the spec, for one batch: each hash is recorded in
    the in-flight table with timestamp [now], the batch is sent to the
    peer, the peer is marked busy with timestamp [now]; [w1] is the
    world in which the idle peer was obtained and [w2] the world after
    the batch. *)
Definition batch_dispatched (peer : Peer) (now : Time) (batch : list bytes)
    (w1 w2 : World) : Prop :=
  (∀ node_key, _pending_nodes (self w2) !! node_key =
               if decide (node_key ∈ batch) then Some now
               else _pending_nodes (self w1) !! node_key) ∧
  _peers_with_pending_requests (self w2) =
    <[peer := now]> (_peers_with_pending_requests (self w1)) ∧
  trace w2 = trace w1 ++ [EvSend peer batch] ∧
  tick w2 = S (tick w1) ∧
  peers (self w2) = peers (self w1) ∧
  scheduler (self w2) = scheduler (self w1) ∧
  _total_processed_nodes (self w2) = _total_processed_nodes (self w1) ∧
  _total_timeouts (self w2) = _total_timeouts (self w1).

(** Section 4.2 of the spec, for a list of batches: for each batch in
    turn an idle peer is awaited, a timestamp is read and the batch is
    dispatched; the run ends early when awaiting a peer raises or is
    still blocked. *)
Inductive dispatched (fuel : nat) : list (list bytes) → World → Outcome unit → Prop :=
| dispatched_done w :
    dispatched fuel [] w (Returned tt w)
| dispatched_batch batch batches w peer w1 w2 o :
    get_idle_peer fuel w = Returned peer w1 →
    peer ∈ idle_peers (self w1) →
    batch_dispatched peer (clock (tick w1)) batch w1 w2 →
    dispatched fuel batches w2 o →
    dispatched fuel (batch :: batches) w o
| dispatched_raised batch batches w e w1 :
    get_idle_peer fuel w = Raised e w1 →
    dispatched fuel (batch :: batches) w (Raised e w1)
| dispatched_blocked batch batches w w1 :
    get_idle_peer fuel w = Suspended w1 →
    dispatched fuel (batch :: batches) w (Suspended w1).

(** How a pass of the sweeper goes on after the re-dispatch. *)
Definition after_redispatch (oldest_request_time : Time) (o : Outcome unit)
    : Outcome LoopControl :=
  match o with
  | Returned _ w => sleep_until_due oldest_request_time w
  | Raised e w =>
      if decide (e = OperationCancelled) then Returned Break w else Raised e w
  | Suspended w => Suspended w
  end.
End downloader.

Arguments Returned {_ _}.
Arguments Raised {_ _}.
Arguments Suspended {_ _}.

End StateDownloader.

(** ** A small instance to run the model on *)

Module Scenario.
Import StateDownloader.

(** A stand-in for keccak256: hashes are compared, never computed, by
    the coroutines above, so any function does for running examples. *)
Definition toy_keccak (blob : bytes) : bytes := reverse blob.

Record ToyScheduler := {
  requests : list bytes;
  committed_nodes : nat;
}.

(** Modelled from the spec: [process] of the scheduler (section 4.1) for
    raw nodes, the class [HexaryTrieSync] being imported from a library.
    For each item: a hash mismatch fails with [BadNode], a hash that is
    not requested fails with [AlreadyProcessed], otherwise the node is
    committed and leaves [requests]. *)
Fixpoint toy_process (sched : ToyScheduler) (items : list (bytes * bytes))
    : option Exn * ToyScheduler :=
  match items with
  | [] => (None, sched)
  | (h, data) :: items =>
      if decide (toy_keccak data ≠ h) then
        (Some (OtherException "BadNode"), sched)
      else if decide (h ∈ requests sched) then
        toy_process {| requests := filter (λ r, r ≠ h) (requests sched);
                       committed_nodes := S (committed_nodes sched) |} items
      else (Some SyncRequestAlreadyProcessed, sched)
  end.

(** Time in whole seconds (literals rounded down), peers numbered,
    batches of at most two. *)
Definition toy_externals : Externals := {|
  Time := Z;
  time_of_Q := Qfloor;
  time_sub := Z.sub;
  time_add := Z.add;
  time_gt := Z.gtb;
  time_lt := Z.ltb;
  Peer := nat;
  keccak := toy_keccak;
  MAX_STATE_FETCH := 2;
  Scheduler := ToyScheduler;
  process := toy_process;
|}.

(** Nothing else runs and nobody cancels; the clock starts at 100 and
    advances by one second per interaction. *)
Definition quiet_clock (i : nat) : Z := 100 + Z.of_nat i.

Definition quiet_runtime : @Runtime toy_externals :=
  @Build_Runtime toy_externals quiet_clock (λ i, i) (λ _ d, d) (λ _, false).

Definition toy_downloader (peers : list nat) (requests : list bytes)
    (pending : list (bytes * Z)) (busy : list (nat * Z)) : @Downloader toy_externals :=
  @Build_Downloader toy_externals peers
    {| requests := requests; committed_nodes := 0 |}
    (list_to_map pending : gmap bytes Z) (list_to_map busy : gmap nat Z) 0 0.

Definition toy_world (d : @Downloader toy_externals) : @World toy_externals :=
  @Build_World toy_externals d 0 [].


(** A stand-in for [rlp.decode(data, sedes=Account)]: the 64 bytes of a
    storage root followed by a code hash, any other length being a
    decoding error. *)
Definition toy_rlp_decode_account (data : bytes) : option StateSync.Account :=
  if decide (length data = 64) then
    Some {| StateSync.nonce := 0; StateSync.balance := 1000;
            StateSync.storage_root := take 32 data;
            StateSync.code_hash := drop 32 data |}
  else None.

Definition code_hash_of_contract : bytes := replicate 32 x60.

(** The leaf of an account with code and no storage. *)
Definition contract_leaf : bytes := BLANK_ROOT_HASH ++ code_hash_of_contract.

(** The leaf of an account with neither storage nor code. *)
Definition plain_leaf : bytes := BLANK_ROOT_HASH ++ EMPTY_SHA3.

(** Peers 1 and 2 are connected and peer 1 is busy since second 70; the
    hash [01] was requested at second 90 and the hash [02] at second 70. *)
Definition busy_world : @World toy_externals :=
  toy_world (toy_downloader [1; 2] [[x01]; [x02]]
               [([x01], 90%Z); ([x02], 70%Z)] [(1, 70%Z)]).

(** A reply with a blob nobody asked for, then the blob of hash [01]. *)
Definition reply : list bytes := [[x03; x04]; [x01]].

(** A reply to the request for [01] whose blob hashes to something else. *)
Definition corrupted_reply : list bytes := [[x03; x04]].

End Scenario.

(** ** The loops of the service *)

Module Service.
Import StateDownloader.

(** What the main loop uses of [HexaryTrieSync]: the property
    [has_pending_requests] and the method [next_batch(n)], which hands
    out requests and changes the scheduler; [node_key] is the attribute
    of a request. *)
Class SchedulerQueue `{Ext : Externals} := {
  Request : Type;
  node_key : Request → bytes;
  has_pending_requests : Scheduler → bool;
  next_batch : Scheduler → nat → list Request * Scheduler;
}.

(** The property [BaseService.is_running], imported from [p2p.service],
    as read at each interaction. *)
Class ServiceState := {
  is_running : nat → bool;
}.

Section service.
Context `{Ext : Externals} `{RT : !Runtime} `{SQ : !SchedulerQueue} `{SS : ServiceState}.

(** The requests that a trace records, oldest first. *)
Definition sends (tr : list Event) : list (Peer * list bytes) :=
  omap (λ ev, match ev with
              | EvSend peer batch => Some (peer, batch)
              | _ => None
              end) tr.

(** [_periodically_retry_timedout]; [passes] bounds the number of passes
    that are followed. *)
Fixpoint _periodically_retry_timedout (passes fuel : nat) : Coro unit :=
  λ w, if is_running (tick w) then
         match passes with
         | 0 => Suspended w
         | S passes =>
             (ctl ← retry_timedout_pass fuel;
              match ctl with
              | Break => mret tt
              | Continue => _periodically_retry_timedout passes fuel
              end) w
         end
       else Returned tt w.

(** [self.scheduler.next_batch(eth.MAX_STATE_FETCH)]. *)
Definition scheduler_next_batch : Coro (list Request) :=
  λ w, let '(requests, sched) := next_batch (scheduler (self w)) MAX_STATE_FETCH in
       Returned requests
         {| self := set_scheduler sched (self w); tick := tick w; trace := trace w |}.

(** The body of the loop of [_run]. *)
Definition sync_iteration (fuel : nat) : Coro unit :=
  wait_first_sleep (time_of_Q 0) ;;
  requests ← scheduler_next_batch;
  match requests with
  | [] => wait_first_sleep (time_of_Q 0.5)
  | _ :: _ => request_nodes fuel (node_key <$> requests)
  end.

(** [while self.scheduler.has_pending_requests]; [iterations] bounds the
    number of iterations that are followed. *)
Fixpoint sync_loop (iterations fuel : nat) : Coro unit :=
  λ w, if has_pending_requests (scheduler (self w)) then
         match iterations with
         | 0 => Suspended w
         | S iterations =>
             (sync_iteration fuel ;; sync_loop iterations fuel) w
         end
       else Returned tt w.

(** [_run].  The attribute [_start_time], which only the progress report
    reads, is its result.  The three coroutines it starts with
    [asyncio.ensure_future] run whenever this one is suspended; the
    subscription to the peer pool feeds the message loop. *)
Definition _run (iterations fuel : nat) : Coro Time :=
  _start_time ← time_time;
  sync_loop iterations fuel ;;
  mret _start_time.
End service.

End Service.

(** ** More of the small instance *)

Module ServiceScenario.
Import StateDownloader Service Scenario.

(** A stand-in for the queue of the scheduler: the requests themselves
    are the keys, and [next_batch] hands out the first [n] of them
    without removing them. *)
Definition toy_queue : @SchedulerQueue toy_externals :=
  @Build_SchedulerQueue toy_externals bytes id
    (λ sched, bool_decide (requests sched ≠ []))
    (λ sched n, (take n (requests sched), sched)).

Definition always_running : ServiceState := {| is_running := λ _, true |}.

(** The cancel token is triggered from the start; nothing else runs. *)
Definition cancelled_runtime : @Runtime toy_externals :=
  @Build_Runtime toy_externals quiet_clock (λ i, i) (λ _ d, d) (λ _, true).

(** While this coroutine sleeps for the first time, the reply handler
    clears the entry of every peer. *)
Definition freeing_runtime : @Runtime toy_externals :=
  @Build_Runtime toy_externals quiet_clock (λ i, i)
    (λ _ d, @set_peers_with_pending_requests toy_externals (∅ : gmap nat Z) d)
    (λ _, false).

(** Peers 1 and 2 are both busy. *)
Definition all_busy_world : @World toy_externals :=
  toy_world (toy_downloader [1; 2] [[x01]] [([x01], 90%Z)] [(1, 95%Z); (2, 96%Z)]).

(** Both peers are idle, nothing is in flight, the hash [01] is requested. *)
Definition idle_world : @World toy_externals :=
  toy_world (toy_downloader [1; 2] [[x01]] [] []).





End ServiceScenario.

(** * Properties *)

(** ** [partition_all] *)

Section partition_all_facts.
Context {A : Type}.
Implicit Types (seq : list A) (n fuel i : nat).

Lemma partition_all_aux_concat n fuel seq :
  0 < n → length seq ≤ fuel → concat (partition_all_aux fuel n seq) = seq.
Proof.
  intros Hn. revert seq.
  induction fuel as [|fuel IH]; intros [|x seq] Hlen; simpl in *; try done; try lia.
  rewrite IH.
  - destruct n as [|n]; [lia|]. simpl. by rewrite take_drop.
  - destruct n as [|n]; [lia|]. simpl. rewrite length_drop. lia.
Qed.

Lemma partition_all_aux_sizes n fuel seq :
  0 < n → Forall (λ batch, 0 < length batch ≤ n) (partition_all_aux fuel n seq).
Proof.
  intros Hn. revert seq.
  induction fuel as [|fuel IH]; intros [|x seq]; simpl; try by constructor.
  constructor; [|apply IH].
  destruct n as [|n]; [lia|]. simpl. rewrite length_take. lia.
Qed.

Lemma partition_all_aux_lookup n fuel seq i :
  0 < n → length seq ≤ fuel →
  partition_all_aux fuel n seq !! i =
    if decide (i * n < length seq) then Some (take n (drop (i * n) seq)) else None.
Proof.
  intros Hn. revert seq i.
  induction fuel as [|fuel IH]; intros [|x seq] i Hlen;
    destruct (decide _) as [Hi|Hi]; simpl in *; try done; try lia.
  - destruct i as [|i]; simpl; [done|].
    destruct n as [|n]; [lia|]. simpl. rewrite IH.
    + rewrite length_drop, drop_drop. rewrite decide_True; [done|lia].
    + rewrite length_drop. lia.
  - destruct i as [|i]; simpl in *; [lia|].
    destruct n as [|n]; [lia|]. simpl. rewrite IH.
    + rewrite length_drop. rewrite decide_False; [done|lia].
    + rewrite length_drop. lia.
Qed.

Lemma partition_all_nil n : partition_all n (@nil A) = [].
Proof. done. Qed.

Lemma partition_all_concat n seq : 0 < n → concat (partition_all n seq) = seq.
Proof. intros. by apply partition_all_aux_concat. Qed.

Lemma partition_all_sizes n seq :
  0 < n → Forall (λ batch, 0 < length batch ≤ n) (partition_all n seq).
Proof. intros. by apply partition_all_aux_sizes. Qed.

Lemma partition_all_lookup n seq i :
  0 < n →
  partition_all n seq !! i =
    if decide (i * n < length seq) then Some (take n (drop (i * n) seq)) else None.
Proof. intros. by apply partition_all_aux_lookup. Qed.
End partition_all_facts.

(** ** The worker pool *)

(** C5, at the input where the code departs from it: on a machine with a
    single logical CPU the downloader asks for a pool of [0] worker
    processes, not for [max(1, 1 - 1) = 1]. *)
Theorem cpu_count_single_cpu :
  Executor.cpu_count (Some 1%Z) = 0%Z ∧
  Executor.cpu_count (Some 1%Z) ≠ (1 `max` (1 - 1))%Z.
Proof. split; [reflexivity|discriminate]. Qed.

Lemma cpu_count_otherwise (os_cpu_count : option Z) :
  os_cpu_count ≠ Some 1%Z → from_option (λ n, 1 ≤ n)%Z True os_cpu_count →
  Executor.cpu_count os_cpu_count = from_option (λ n, 1 `max` (n - 1))%Z 1%Z os_cpu_count.
Proof.
  destruct os_cpu_count as [n|]; simpl; [|done].
  intros Hne Hpos. assert (n ≠ 1%Z) by congruence. lia.
Qed.

(** ** The account leaf callback *)

Section leaf_callback_facts.
Import StateSync.
Context {Request : Type} (rlp_decode_account : bytes → option Account).

(** C1: on a leaf that decodes to an account, the callback schedules one
    request for the storage root (depth 64, parent the leaf, no leaf
    callback) exactly when it differs from [BLANK_ROOT_HASH], then one raw
    request for the code hash (depth 64) exactly when it differs from
    [EMPTY_SHA3], and nothing else; so nothing at all when both fields
    hold their empty constants. *)
Theorem leaf_callback_schedules (data : bytes) (parent : Request) (account : Account) :
  rlp_decode_account data = Some account →
  leaf_callback rlp_decode_account data parent =
    Some ((if decide (storage_root account ≠ BLANK_ROOT_HASH)
           then [{| sc_node_key := storage_root account; sc_parent := parent;
                    sc_depth := 64; sc_leaf_callback := None; sc_is_raw := false |}]
           else []) ++
          (if decide (code_hash account ≠ EMPTY_SHA3)
           then [{| sc_node_key := code_hash account; sc_parent := parent;
                    sc_depth := 64; sc_leaf_callback := None; sc_is_raw := true |}]
           else [])) ∧
  (storage_root account = BLANK_ROOT_HASH → code_hash account = EMPTY_SHA3 →
   leaf_callback rlp_decode_account data parent = Some []).
Proof.
  intros Hdec. unfold leaf_callback, schedule. rewrite Hdec. simpl.
  split.
  - by repeat case_decide.
  - intros Hs Hc. by repeat case_decide.
Qed.
End leaf_callback_facts.

(** ** The downloader *)

Ltac unfold_coro :=
  unfold mbind, mret, StateDownloader.Coro_bind, StateDownloader.Coro_ret,
    StateDownloader.bind, StateDownloader.ret in *.

Section downloader_facts.
Import StateDownloader.
Context `{Ext : Externals} `{RT : !Runtime}.
Implicit Types (w : World) (d : Downloader) (peer : Peer) (msg : list bytes).
Implicit Types (now oldest : Time) (fuel : nat).

(** *** Idle peers *)

Lemma elem_of_idle_peers d peer :
  peer ∈ idle_peers d ↔
  peer ∈ peers d ∧ _peers_with_pending_requests d !! peer = None.
Proof.
  unfold idle_peers.
  rewrite elem_of_elements, elem_of_difference, elem_of_list_to_set, not_elem_of_dom.
  done.
Qed.

Lemma secrets_choice_nonempty {X} (seq : list X) w :
  seq ≠ [] → ∃ x, x ∈ seq ∧ secrets_choice seq w = Returned x (next_tick w).
Proof.
  intros Hne. unfold secrets_choice.
  assert (random (tick w) `mod` length seq < length seq) as Hlt.
  { apply Nat.mod_upper_bound. destruct seq; simpl; [done|lia]. }
  apply lookup_lt_is_Some_2 in Hlt as [x Hx]. rewrite Hx.
  exists x. split; [|done]. by eapply list_elem_of_lookup_2.
Qed.

Lemma get_idle_peer_outcome fuel w :
  match get_idle_peer fuel w with
  | Returned peer w' =>
      peer ∈ idle_peers (self w') ∧
      ∃ sleeps, sleeps ≤ fuel ∧
        trace w' = trace w ++ replicate sleeps (EvSleep (time_of_Q 0.02)) ∧
        (idle_peers (self w) = [] → 0 < sleeps)
  | Raised e w' => e = OperationCancelled ∧ idle_peers (self w) = []
  | Suspended w' =>
      idle_peers (self w') = [] ∧
      trace w' = trace w ++ replicate fuel (EvSleep (time_of_Q 0.02))
  end.
Proof.
  revert w. induction fuel as [|fuel IH]; intros w; simpl;
    destruct (idle_peers (self w)) as [|p ps] eqn:Hidle.
  - split; [done|]. by rewrite app_nil_r.
  - destruct (secrets_choice_nonempty (p :: ps) w) as (x & Hx & ->); [done|].
    simpl. rewrite Hidle. split; [done|]. exists 0.
    split_and!; [lia|by rewrite app_nil_r|done].
  - unfold wait_first_sleep, emit, suspend_cancellable. unfold_coro. simpl.
    destruct (token_triggered (tick w)); [done|].
    match goal with |- context [get_idle_peer fuel ?w1] => specialize (IH w1) end.
    destruct (get_idle_peer fuel _) as [peer w'|e w'|w']; simpl in *.
    + destruct IH as (Hin & sleeps & Hle & Htr & _). split; [done|].
      exists (S sleeps). split_and!; [lia| |lia].
      rewrite Htr. simpl. by rewrite <- app_assoc.
    + by destruct IH as [-> _].
    + destruct IH as [Hnil Htr]. split; [done|].
      rewrite Htr. simpl. by rewrite <- app_assoc.
  - destruct (secrets_choice_nonempty (p :: ps) w) as (x & Hx & ->); [done|].
    simpl. rewrite Hidle. split; [done|]. exists 0.
    split_and!; [lia|by rewrite app_nil_r|done].
Qed.

Lemma get_idle_peer_ready fuel w :
  idle_peers (self w) ≠ [] →
  ∃ peer, get_idle_peer fuel w = Returned peer (next_tick w).
Proof.
  intros Hne.
  destruct (secrets_choice_nonempty (idle_peers (self w)) w) as (x & Hx & Heq); [done|].
  exists x. destruct fuel; simpl; destruct (idle_peers (self w)); done.
Qed.


(** *** The request dispatcher *)

Lemma request_nodes_nil fuel w : request_nodes fuel [] w = Returned tt w.
Proof. reflexivity. Qed.

(** C10: dispatching an empty list of hashes returns at once in the very
    same world: no idle peer awaited (no suspension, no random draw),
    nothing sent (no event), the downloader and with it both tables
    unchanged. *)
Theorem request_nodes_empty fuel w :
  request_nodes fuel [] w = Returned tt w.
Proof. unfold request_nodes. by rewrite partition_all_nil. Qed.

(** *** The reply handler *)

(** C8: handling a message whose command is not [NodeData] returns in
    the very same world: scheduler, in-flight table, peer-busy table and
    counters are untouched, and no call is made. *)
Theorem handle_msg_ignores_other_commands peer cmd msg w :
  cmd ≠ NodeData → _handle_msg peer cmd msg w = Returned tt w.
Proof. intros Hcmd. by destruct cmd. Qed.

(** *** Dispatching batches *)

Lemma record_pending_run (now : Time) (batch : list bytes) w :
  ∃ w', for_each batch (λ node_key,
          update (λ d, set_pending_nodes (<[node_key := now]> (_pending_nodes d)) d)) w
        = Returned tt w' ∧
    (∀ node_key, _pending_nodes (self w') !! node_key =
                 if decide (node_key ∈ batch) then Some now
                 else _pending_nodes (self w) !! node_key) ∧
    _peers_with_pending_requests (self w') = _peers_with_pending_requests (self w) ∧
    trace w' = trace w ∧ tick w' = tick w ∧
    peers (self w') = peers (self w) ∧
    scheduler (self w') = scheduler (self w) ∧
    _total_processed_nodes (self w') = _total_processed_nodes (self w) ∧
    _total_timeouts (self w') = _total_timeouts (self w).
Proof.
  revert w. induction batch as [|key batch IH]; intros w; simpl.
  - exists w. by split_and!.
  - unfold_coro. unfold update at 1. simpl.
    match goal with |- context [for_each batch _ ?w1] => destruct (IH w1) as (w' & -> & Hp & Hrest) end.
    exists w'. split; [done|]. split; [|exact Hrest].
    intros k. rewrite Hp. simpl. rewrite lookup_insert.
    destruct (decide (k ∈ batch)) as [Hin|Hin].
    + rewrite decide_True; [done|]. by apply elem_of_cons; right.
    + destruct (decide (key = k)) as [->|Hne].
      * rewrite decide_True; [done|]. by apply elem_of_cons; left.
      * rewrite decide_False; [done|].
        intros [->|?]%elem_of_cons; done.
Qed.

Lemma request_batch_run fuel (batch : list bytes) w :
  match get_idle_peer fuel w with
  | Returned peer w1 =>
      ∃ w2, request_batch fuel batch w = Returned tt w2 ∧
            batch_dispatched peer (clock (tick w1)) batch w1 w2
  | Raised e w1 => request_batch fuel batch w = Raised e w1
  | Suspended w1 => request_batch fuel batch w = Suspended w1
  end.
Proof.
  unfold request_batch. unfold_coro.
  destruct (get_idle_peer fuel w) as [peer w1|e w1|w1]; [|done..].
  unfold time_time.
  destruct (record_pending_run (clock (tick w1)) batch (next_tick w1))
    as (w' & Hrun & Hp & Hbusy & Htr & Htick & Hpeers & Hsched & Hproc & Hto).
  rewrite Hrun. unfold emit, update. simpl.
  eexists. split; [done|].
  unfold batch_dispatched. simpl.
  rewrite Hbusy, Htr, Htick, Hpeers, Hsched, Hproc, Hto. by split_and!.
Qed.

Lemma request_batches_dispatched fuel (batches : list (list bytes)) w :
  dispatched fuel batches w (for_each batches (request_batch fuel) w).
Proof.
  revert w. induction batches as [|batch batches IH]; intros w; simpl.
  - constructor.
  - unfold_coro.
    pose proof (request_batch_run fuel batch w) as Hrun.
    pose proof (get_idle_peer_outcome fuel w) as Hpick.
    destruct (get_idle_peer fuel w) as [peer w1|e w1|w1] eqn:Hget.
    + destruct Hrun as (w2 & -> & Hdisp). destruct Hpick as [Hidle _].
      eapply dispatched_batch; eauto.
    + rewrite Hrun. by constructor.
    + rewrite Hrun. by constructor.
Qed.

(** C3: the hashes given to the dispatcher are cut into consecutive
    batches of at most [MAX_STATE_FETCH] hashes (none empty, batch [i]
    holding the hashes from position [i * MAX_STATE_FETCH] on), and the
    batches are dispatched in turn: an idle peer is awaited, the clock
    is read, every hash of the batch gets that reading in the in-flight
    table, the batch is sent to that peer and the peer is marked busy
    with that same reading. *)
Theorem request_nodes_dispatches_batches fuel (node_keys : list bytes) w :
  0 < MAX_STATE_FETCH →
  let batches := partition_all MAX_STATE_FETCH node_keys in
  concat batches = node_keys ∧
  Forall (λ batch, 0 < length batch ≤ MAX_STATE_FETCH) batches ∧
  (∀ i, batches !! i =
        if decide (i * MAX_STATE_FETCH < length node_keys)
        then Some (take MAX_STATE_FETCH (drop (i * MAX_STATE_FETCH) node_keys))
        else None) ∧
  dispatched fuel batches w (request_nodes fuel node_keys w).
Proof.
  intros Hmax batches. split_and!.
  - by apply partition_all_concat.
  - by apply partition_all_sizes.
  - intros i. by apply partition_all_lookup.
  - apply request_batches_dispatched.
Qed.

(** *** The timeout sweeper *)

Lemma sweep_keeps_absent now (items : list (Peer * Time)) (busy : gmap Peer Time) peer :
  busy !! peer = None →
  foldl (λ busy '(peer, last_req_time),
           if timed_out_at now last_req_time then delete peer busy else busy)
        busy items !! peer = None.
Proof.
  revert busy. induction items as [|[q t] items IH]; intros busy Hnone; simpl; [done|].
  apply IH. destruct (timed_out_at now t); [|done].
  rewrite lookup_delete. by case_decide.
Qed.

Lemma sweep_drops now (items : list (Peer * Time)) (busy : gmap Peer Time) peer t :
  (peer, t) ∈ items → timed_out_at now t = true →
  foldl (λ busy '(peer, last_req_time),
           if timed_out_at now last_req_time then delete peer busy else busy)
        busy items !! peer = None.
Proof.
  revert busy. induction items as [|[q t'] items IH]; intros busy Hin Hout; simpl.
  - by apply elem_of_nil in Hin.
  - apply elem_of_cons in Hin as [[= <- <-]|Hin]; [|by apply IH].
    rewrite Hout. apply sweep_keeps_absent. apply lookup_delete_eq.
Qed.

Lemma sweep_keeps now (items : list (Peer * Time)) (busy : gmap Peer Time) peer :
  (∀ t, (peer, t) ∈ items → timed_out_at now t = false) →
  foldl (λ busy '(peer, last_req_time),
           if timed_out_at now last_req_time then delete peer busy else busy)
        busy items !! peer = busy !! peer.
Proof.
  revert busy. induction items as [|[q t'] items IH]; intros busy Hall; simpl; [done|].
  rewrite IH.
  - destruct (timed_out_at now t') eqn:Hout; [|done].
    rewrite lookup_delete_ne; [done|]. intros ->.
    rewrite Hall in Hout; [done|]. by left.
  - intros t Hin. apply Hall. by right.
Qed.

Lemma drop_timed_out_peers_lookup now (busy : gmap Peer Time) peer t :
  drop_timed_out_peers now busy !! peer = Some t ↔
  busy !! peer = Some t ∧ timed_out_at now t = false.
Proof.
  unfold drop_timed_out_peers.
  destruct (busy !! peer) as [t0|] eqn:Hlook.
  - destruct (timed_out_at now t0) eqn:Hout.
    + rewrite (sweep_drops now _ _ peer t0); [|by apply elem_of_map_to_list|done].
      split; [done|]. intros [[= ->] ?]. congruence.
    + rewrite sweep_keeps.
      * rewrite Hlook. split; [by intros [= ->]|by intros [? _]].
      * intros t1 Hin%elem_of_map_to_list. congruence.
  - rewrite sweep_keeps_absent; [|done]. split; [done|by intros [? _]].
Qed.

Lemma collect_timed_out_fold now (items : list (bytes * Time)) oldest timed_out :
  (foldl (λ '(oldest_request_time, timed_out) '(node_key, req_time),
            if timed_out_at now req_time then
              (oldest_request_time, timed_out ++ [node_key])
            else if time_lt req_time oldest_request_time then
              (req_time, timed_out)
            else (oldest_request_time, timed_out))
         (oldest, timed_out) items).2 =
  timed_out ++ (filter (λ item, timed_out_at now item.2 = true) items).*1.
Proof.
  revert oldest timed_out.
  induction items as [|[k t] items IH]; intros oldest timed_out; simpl.
  - by rewrite app_nil_r.
  - rewrite filter_cons. simpl.
    destruct (timed_out_at now t) eqn:Hout.
    + rewrite IH. rewrite decide_True; [|done]. by rewrite <- app_assoc.
    + rewrite decide_False; [|congruence].
      destruct (time_lt t oldest); by rewrite IH.
Qed.

Lemma collect_timed_out_keys now (pending : gmap bytes Time) :
  (collect_timed_out now pending).2 =
  (filter (λ item, timed_out_at now item.2 = true) (map_to_list pending)).*1.
Proof. unfold collect_timed_out. by rewrite collect_timed_out_fold. Qed.

Lemma elem_of_collect_timed_out now (pending : gmap bytes Time) node_key :
  node_key ∈ (collect_timed_out now pending).2 ↔
  ∃ req_time, pending !! node_key = Some req_time ∧ timed_out_at now req_time = true.
Proof.
  rewrite collect_timed_out_keys, list_elem_of_fmap. split.
  - intros ([k t] & -> & [Hout Hin%elem_of_map_to_list]%list_elem_of_filter). eauto.
  - intros (t & Hlook & Hout). exists (node_key, t). split; [done|].
    apply list_elem_of_filter. split; [done|]. by apply elem_of_map_to_list.
Qed.

Lemma NoDup_collect_timed_out now (pending : gmap bytes Time) :
  NoDup (collect_timed_out now pending).2.
Proof.
  rewrite collect_timed_out_keys.
  eapply sublist_NoDup; [apply (NoDup_fst_map_to_list pending)|].
  apply fmap_sublist, sublist_filter.
Qed.

Lemma set_total_timeouts_same d : set_total_timeouts (_total_timeouts d + 0) d = d.
Proof. destruct d. unfold set_total_timeouts. simpl. by rewrite Nat.add_0_r. Qed.

Lemma retry_and_sleep_run fuel oldest (timed_out : list bytes) w :
  retry_and_sleep fuel oldest timed_out w =
  after_redispatch oldest
    (request_nodes fuel timed_out
       {| self := set_total_timeouts (_total_timeouts (self w) + length timed_out) (self w);
          tick := tick w; trace := trace w |}).
Proof.
  unfold retry_and_sleep. unfold_coro.
  destruct (decide (timed_out ≠ [])) as [Hne|Heq].
  - unfold update at 1, try_except at 1. simpl.
    destruct (request_nodes fuel timed_out _) as [[] w'|e w'|w']; simpl; try done.
    by destruct (decide (e = OperationCancelled)).
  - assert (timed_out = []) as ->.
    { destruct timed_out; [done|]. by destruct Heq. }
    rewrite request_nodes_nil. simpl.
    rewrite set_total_timeouts_same. by destruct w.
Qed.

(** C2: one pass of the sweeper, with [now] its first reading of the
    clock.  The peer-busy table keeps exactly the entries that are not
    older than [REPLY_TIMEOUT], so that a subscribed peer whose entry was
    older is idle again; the keys collected are exactly the keys
    of the in-flight entries older than [REPLY_TIMEOUT], each once; the
    in-flight table itself is left as it was; the timeout counter grows
    by the number of keys collected; and the pass goes on by handing
    these keys, in that state, to the request dispatcher. *)
Theorem retry_pass_sweeps_and_redispatches fuel w :
  let now := clock (tick w) in
  let busy := drop_timed_out_peers now (_peers_with_pending_requests (self w)) in
  let collected := collect_timed_out now (_pending_nodes (self w)) in
  let swept :=
    {| self := set_total_timeouts (_total_timeouts (self w) + length collected.2)
                 (set_peers_with_pending_requests busy (self w));
       tick := S (tick w); trace := trace w |} in
  (∀ peer last_req_time,
     busy !! peer = Some last_req_time ↔
     _peers_with_pending_requests (self w) !! peer = Some last_req_time ∧
     timed_out_at now last_req_time = false) ∧
  (∀ peer last_req_time,
     peer ∈ peers (self w) →
     _peers_with_pending_requests (self w) !! peer = Some last_req_time →
     timed_out_at now last_req_time = true →
     peer ∈ idle_peers (self swept)) ∧
  (∀ node_key,
     node_key ∈ collected.2 ↔
     ∃ req_time, _pending_nodes (self w) !! node_key = Some req_time ∧
                 timed_out_at now req_time = true) ∧
  NoDup collected.2 ∧
  _pending_nodes (self swept) = _pending_nodes (self w) ∧
  _total_timeouts (self swept) = _total_timeouts (self w) + length collected.2 ∧
  retry_timedout_pass fuel w =
    after_redispatch collected.1 (request_nodes fuel collected.2 swept).
Proof.
  intros now busy collected swept. split_and!.
  - apply drop_timed_out_peers_lookup.
  - intros peer t Hpeer Hbusy Hout. apply elem_of_idle_peers. split; [done|].
    simpl. destruct (busy !! peer) as [t'|] eqn:Hlook; [|done].
    apply drop_timed_out_peers_lookup in Hlook as [Hlook Hfresh]. congruence.
  - apply elem_of_collect_timed_out.
  - apply NoDup_collect_timed_out.
  - done.
  - done.
  - unfold retry_timedout_pass. unfold_coro. unfold time_time, update, get_self. simpl.
    fold now. fold collected. destruct collected as [oldest timed_out] eqn:Hc.
    by rewrite retry_and_sleep_run.
Qed.

(** *** Processing the blobs of a reply *)

Lemma process_node_run (node_key node : bytes) w :
  let result := process (scheduler (self w)) [(node_key, node)] in
  let w1 :=
    {| self := set_scheduler result.2
                 (set_total_processed_nodes (_total_processed_nodes (self w) + 1) (self w));
       tick := tick w; trace := trace w ++ [EvProcess [(node_key, node)]] |} in
  process_node (node_key, node) w =
    match result.1 with
    | None => Returned tt (node_processed node_key w1)
    | Some e =>
        if decide (e = SyncRequestAlreadyProcessed)
        then Returned tt (node_processed node_key w1)
        else Raised e w1
    end.
Proof.
  unfold process_node, scheduler_process, try_except, run_process, emit, update.
  unfold_coro. simpl.
  destruct (process (scheduler (self w)) [(node_key, node)]) as [[e|] sched]; simpl;
    [|done].
  by destruct (decide (e = SyncRequestAlreadyProcessed)).
Qed.

Lemma process_nodes_frame msg w :
  let o := for_each (zip (keccak <$> msg) msg) process_node w in
  ∃ n, n ≤ length msg ∧
    trace (world_of o) = trace w ++ (processed_under_own_hash <$> take n msg) ∧
    _total_processed_nodes (self (world_of o)) = _total_processed_nodes (self w) + n ∧
    (∀ node_key, node_key ∉ keccak <$> msg →
       _pending_nodes (self (world_of o)) !! node_key =
       _pending_nodes (self w) !! node_key) ∧
    _peers_with_pending_requests (self (world_of o)) =
      _peers_with_pending_requests (self w) ∧
    tick (world_of o) = tick w ∧
    match o with
    | Returned _ _ => n = length msg
    | Raised e _ =>
        e ≠ SyncRequestAlreadyProcessed ∧
        ∃ sched blob, blob ∈ msg ∧ (process sched [(keccak blob, blob)]).1 = Some e
    | Suspended _ => False
    end.
Proof.
  revert w. induction msg as [|blob msg IH]; intros w.
  { exists 0. simpl. rewrite app_nil_r. split_and!; try done; lia. }
  change (for_each (zip (keccak <$> blob :: msg) (blob :: msg)) process_node w)
    with (bind (process_node (keccak blob, blob))
               (λ _, for_each (zip (keccak <$> msg) msg) process_node) w).
  unfold bind. rewrite process_node_run.
  set (result := process (scheduler (self w)) [(keccak blob, blob)]).
  assert (∀ w1 : World,
    trace w1 = trace w ++ [EvProcess [(keccak blob, blob)]] →
    _total_processed_nodes (self w1) = _total_processed_nodes (self w) + 1 →
    _pending_nodes (self w1) = delete (keccak blob) (_pending_nodes (self w)) →
    _peers_with_pending_requests (self w1) = _peers_with_pending_requests (self w) →
    tick w1 = tick w →
    let o := for_each (zip (keccak <$> msg) msg) process_node w1 in
    ∃ n, n ≤ S (length msg) ∧
      trace (world_of o) = trace w ++ (processed_under_own_hash <$> take n (blob :: msg)) ∧
      _total_processed_nodes (self (world_of o)) = _total_processed_nodes (self w) + n ∧
      (∀ node_key, node_key ∉ keccak blob :: (keccak <$> msg) →
         _pending_nodes (self (world_of o)) !! node_key =
         _pending_nodes (self w) !! node_key) ∧
      _peers_with_pending_requests (self (world_of o)) =
        _peers_with_pending_requests (self w) ∧
      tick (world_of o) = tick w ∧
      match o with
      | Returned _ _ => n = S (length msg)
      | Raised e _ =>
          e ≠ SyncRequestAlreadyProcessed ∧
          ∃ sched blob', blob' ∈ blob :: msg ∧
                         (process sched [(keccak blob', blob')]).1 = Some e
      | Suspended _ => False
      end) as Hstep.
  { intros w1 Htr Hcnt Hpend Hbusy Htick o.
    destruct (IH w1) as (n & Hn & Htr' & Hcnt' & Hpend' & Hbusy' & Htick' & Ho).
    fold o in Htr', Hcnt', Hpend', Hbusy', Htick', Ho.
    exists (S n). split_and!.
    - lia.
    - rewrite Htr', Htr. simpl. by rewrite <- app_assoc.
    - rewrite Hcnt', Hcnt. lia.
    - intros k Hk. apply not_elem_of_cons in Hk as [Hne Hk].
      rewrite Hpend', Hpend; [|done]. by rewrite lookup_delete_ne.
    - by rewrite Hbusy'.
    - by rewrite Htick'.
    - destruct o as [? ?|e ?|?]; [lia| |done].
      destruct Ho as (Hne & sched & blob' & Hin & Hraise).
      split; [done|]. exists sched, blob'. split; [by right|done]. }
  destruct (result.1) as [e|] eqn:Hres;
    [destruct (decide (e = SyncRequestAlreadyProcessed)) as [->|Hne]|].
  - by apply Hstep.
  - exists 1. simpl. split_and!; try done; try lia.
    exists (scheduler (self w)), blob. split; [by left|done].
  - by apply Hstep.
Qed.



Lemma handle_node_data_run peer msg w :
  _handle_msg peer NodeData msg w =
  for_each (zip (keccak <$> msg) msg) process_node
    {| self := interleave (tick w) (peer_cleared peer (self w));
       tick := S (tick w);
       trace := trace w ++ [EvHash msg] |}.
Proof.
  unfold _handle_msg, run_in_executor_keccak, get_self, emit, suspend, resumed,
    peer_cleared.
  unfold_coro.
  destruct (decide (is_Some (_peers_with_pending_requests (self w) !! peer)))
    as [Hsome|Hnone]; simpl; [done|].
  apply eq_None_not_Some in Hnone. rewrite delete_id; [|done].
  by destruct w as [[] ? ?].
Qed.



(** C6, as the code has it: the handler never compares a blob with a
    requested key.  Whatever the reply, each blob it hands to the
    scheduler goes under the keccak hash of that very blob; the
    in-flight entry of every key that no blob of the reply hashes to is
    left as it was; and the handler itself raises nothing: it returns
    when the scheduler only answers [AlreadyProcessed], and an exception
    that leaves it is one the scheduler raised. *)
Theorem handle_node_data_keys_are_own_hashes peer msg w :
  let d := interleave (tick w) (peer_cleared peer (self w)) in
  let o := _handle_msg peer NodeData msg w in
  ∃ n, n ≤ length msg ∧
    trace (world_of o) =
      trace w ++ EvHash msg :: (processed_under_own_hash <$> take n msg) ∧
    (∀ node_key, node_key ∉ keccak <$> msg →
       _pending_nodes (self (world_of o)) !! node_key = _pending_nodes d !! node_key) ∧
    match o with
    | Returned _ _ => n = length msg
    | Raised e _ =>
        e ≠ SyncRequestAlreadyProcessed ∧
        ∃ sched blob, blob ∈ msg ∧ (process sched [(keccak blob, blob)]).1 = Some e
    | Suspended _ => False
    end.
Proof.
  intros d o. unfold o. rewrite handle_node_data_run.
  match goal with |- context [for_each _ process_node ?w1] =>
    destruct (process_nodes_frame msg w1) as (n & Hn & Htr & _ & Hpend & _ & _ & Ho)
  end.
  exists n. split_and!; try done.
  rewrite Htr. simpl. by rewrite <- app_assoc.
Qed.
End downloader_facts.

(** ** The properties on the small instance *)

Section scenario_facts.
Import StateDownloader Scenario.


(** An account with code and no storage: one raw request, for the code. *)
Lemma leaf_callback_schedules_witness :
  toy_rlp_decode_account contract_leaf =
    Some {| StateSync.nonce := 0; StateSync.balance := 1000;
            StateSync.storage_root := BLANK_ROOT_HASH;
            StateSync.code_hash := code_hash_of_contract |} ∧
  StateSync.leaf_callback toy_rlp_decode_account contract_leaf tt =
    Some [{| StateSync.sc_node_key := code_hash_of_contract;
             StateSync.sc_parent := tt; StateSync.sc_depth := 64;
             StateSync.sc_leaf_callback := None; StateSync.sc_is_raw := true |}].
Proof.
  split; [reflexivity|].
  destruct (leaf_callback_schedules toy_rlp_decode_account contract_leaf tt _ eq_refl)
    as [Hcalls _].
  rewrite Hcalls. reflexivity.
Defined.

(** Three hashes, batches of two, two idle peers: both batches go out. *)
Lemma request_nodes_dispatches_batches_witness :
  0 < MAX_STATE_FETCH (Externals := toy_externals) ∧
  let w := toy_world (toy_downloader [1; 2] [] [] []) in
  let node_keys := [[x01]; [x02]; [x03]] in
  partition_all 2 node_keys = [[[x01]; [x02]]; [[x03]]] ∧
  (∃ w', request_nodes (RT := quiet_runtime) 0 node_keys w = Returned tt w' ∧
         trace w' = [@EvSend toy_externals 2 [[x01]; [x02]]; @EvSend toy_externals 1 [[x03]]]) ∧
  dispatched (RT := quiet_runtime) 0 (partition_all 2 node_keys) w
    (request_nodes (RT := quiet_runtime) 0 node_keys w).
Proof.
  split; [simpl; lia|]. intros w node_keys.
  split; [reflexivity|].
  split.
  { exists (world_of (request_nodes (RT := quiet_runtime) 0 node_keys w)).
    split; reflexivity. }
  apply (request_nodes_dispatches_batches (RT := quiet_runtime) 0 node_keys w).
  simpl. lia.
Defined.



Lemma handle_msg_ignores_other_commands_witness :
  OtherCommand 3 ≠ NodeData ∧
  _handle_msg (RT := quiet_runtime) 1 (OtherCommand 3) reply busy_world =
    Returned tt busy_world.
Proof.
  split; [discriminate|].
  apply (handle_msg_ignores_other_commands (RT := quiet_runtime)). discriminate.
Defined.

(** An account with neither storage nor code: nothing is scheduled. *)
Example plain_leaf_schedules_nothing :
  StateSync.leaf_callback toy_rlp_decode_account plain_leaf tt = Some [].
Proof. reflexivity. Qed.

(** A pass of the sweeper at second 100: peer 1 and the hash [02], both
    of second 70, have timed out; [02] is sent again, to peer 1, and the
    pass sleeps until the request for [01] is due. *)
Example sweeper_pass :
  ∃ w', retry_timedout_pass (RT := quiet_runtime) 0 busy_world = Returned Continue w' ∧
    trace w' = [@EvSend toy_externals 1 [[x02]]; @EvSleep toy_externals 7%Z] ∧
    _total_timeouts (self w') = 1 ∧
    _pending_nodes (self w') !! [x01] = Some 90%Z ∧
    _pending_nodes (self w') !! [x02] = Some 102%Z ∧
    _peers_with_pending_requests (self w') !! 1 = Some 102%Z.
Proof.
  exists (world_of (retry_timedout_pass (RT := quiet_runtime) 0 busy_world)).
  split; [reflexivity|]. repeat split; reflexivity.
Qed.

(** With every connected peer busy and nothing else running, the picker
    is still waiting after three sleeps. *)
Example picker_blocks :
  ∃ w', get_idle_peer (RT := quiet_runtime) 3
          (toy_world (toy_downloader [1] [] [] [(1, 99%Z)])) = Suspended w' ∧
    trace w' = replicate 3 (@EvSleep toy_externals 0%Z).
Proof.
  exists (world_of (get_idle_peer (RT := quiet_runtime) 3
                      (toy_world (toy_downloader [1] [] [] [(1, 99%Z)])))).
  split; reflexivity.
Qed.

(** C6 as stated fails here: the blob [03 04] arrives in reply to the
    request for the hash [01], which it does not hash to.  The handler
    does not fail with [BadNode]; it hands the blob to the scheduler
    under the blob's own hash, the scheduler answers [AlreadyProcessed],
    and the handler returns.  The in-flight entry of [01] stays. *)
Lemma corrupted_reply_is_not_rejected :
  toy_keccak [x03; x04] ≠ [x01] ∧
  _pending_nodes (self busy_world) !! [x01] = Some 90%Z ∧
  toy_process (scheduler (self busy_world)) [(toy_keccak [x03; x04], [x03; x04])] =
    (Some SyncRequestAlreadyProcessed, scheduler (self busy_world)) ∧
  (∀ e w', _handle_msg (RT := quiet_runtime) 1 NodeData corrupted_reply busy_world
           ≠ Raised e w') ∧
  ∃ w', _handle_msg (RT := quiet_runtime) 1 NodeData corrupted_reply busy_world
        = Returned tt w' ∧
    trace w' = [@EvHash toy_externals corrupted_reply; @EvProcess toy_externals [([x04; x03], [x03; x04])]] ∧
    _total_processed_nodes (self w') = 1 ∧
    _pending_nodes (self w') !! [x01] = Some 90%Z.
Proof.
  split; [discriminate|].
  split; [reflexivity|]. split; [reflexivity|].
  split; [intros e w'; discriminate|].
  exists (world_of (_handle_msg (RT := quiet_runtime) 1 NodeData corrupted_reply busy_world)).
  split; [reflexivity|]. repeat split; reflexivity.
Defined.
End scenario_facts.

(** * Further properties *)

(** ** The idle-peer picker *)

Section picker_facts.
Import StateDownloader.
Context `{Ext : Externals} `{RT : !Runtime}.
Implicit Types (w : World) (d : Downloader) (peer : Peer) (fuel : nat).

(** X1: [idle_peers] lists every idle peer once, however often the peer
    pool lists it; with an empty peer-busy table it lists exactly the
    peers of the pool. *)
Theorem idle_peers_distinct d :
  NoDup (idle_peers d) ∧
  (_peers_with_pending_requests d = ∅ → ∀ peer, peer ∈ idle_peers d ↔ peer ∈ peers d).
Proof.
  split.
  - unfold idle_peers. apply NoDup_elements.
  - intros Hempty peer. rewrite elem_of_idle_peers, Hempty, lookup_empty.
    split; [by intros [? _]|done].
Qed.

(** X2: when no peer is idle and the other coroutines free one during
    the first sleep, the picker returns after that single sleep, with a
    peer that is idle in the state it wakes up in. *)
Theorem get_idle_peer_wakes_up fuel w :
  idle_peers (self w) = [] →
  token_triggered (tick w) = false →
  idle_peers (interleave (tick w) (self w)) ≠ [] →
  ∃ peer w', get_idle_peer (S fuel) w = Returned peer w' ∧
    peer ∈ idle_peers (interleave (tick w) (self w)) ∧
    self w' = interleave (tick w) (self w) ∧
    trace w' = trace w ++ [EvSleep (time_of_Q 0.02)].
Proof.
  intros Hidle Htoken Hfreed. simpl. rewrite Hidle.
  unfold wait_first_sleep, emit, suspend_cancellable. unfold_coro. simpl.
  rewrite Htoken.
  match goal with |- context [get_idle_peer fuel ?w1] =>
    destruct (get_idle_peer_ready fuel w1) as [peer Hrun]; [done|];
    pose proof (get_idle_peer_outcome fuel w1) as Hout
  end.
  rewrite Hrun in Hout. destruct Hout as [Hin _].
  eexists _, _. split; [exact Hrun|]. by split_and!.
Qed.

(** X3: when no peer is idle and the cancel token is triggered, the
    picker raises [OperationCancelled] out of its first sleep: no peer is
    chosen and nothing but that sleep is recorded. *)
Theorem get_idle_peer_cancelled fuel w :
  idle_peers (self w) = [] →
  token_triggered (tick w) = true →
  ∃ w', get_idle_peer (S fuel) w = Raised OperationCancelled w' ∧
    trace w' = trace w ++ [EvSleep (time_of_Q 0.02)].
Proof.
  intros Hidle Htoken. simpl. rewrite Hidle.
  unfold wait_first_sleep, emit, suspend_cancellable. unfold_coro. simpl.
  rewrite Htoken. by eexists.
Qed.

(** X4: when no peer is idle, no other coroutine changes the downloader
    and nobody cancels, the picker never returns: after any number of
    sleeps it is still waiting, the downloader untouched. *)
Theorem get_idle_peer_waits_forever fuel w :
  (∀ i d, interleave i d = d) →
  (∀ i, token_triggered i = false) →
  idle_peers (self w) = [] →
  ∃ w', get_idle_peer fuel w = Suspended w' ∧ self w' = self w.
Proof.
  intros Hquiet Htoken. revert w.
  induction fuel as [|fuel IH]; intros w Hidle; simpl; rewrite Hidle.
  - by eexists.
  - unfold wait_first_sleep, emit, suspend_cancellable. unfold_coro. simpl.
    rewrite Htoken.
    match goal with |- context [get_idle_peer fuel ?w1] =>
      destruct (IH w1) as (w' & -> & Hself)
    end.
    + simpl. by rewrite Hquiet.
    + exists w'. split; [done|]. rewrite Hself. simpl. apply Hquiet.
Qed.
End picker_facts.

(** ** What the request dispatcher sends *)

Section dispatcher_facts.
Import StateDownloader Service.
Context `{Ext : Externals} `{RT : !Runtime}.
Implicit Types (w : World) (d : Downloader) (peer : Peer) (fuel : nat).
Implicit Types (batches : list (list bytes)) (node_keys : list bytes).

Lemma sends_app (tr1 tr2 : list Event) : sends (tr1 ++ tr2) = sends tr1 ++ sends tr2.
Proof. apply omap_app. Qed.

Lemma sends_sleeps n (delay : Time) : sends (replicate n (EvSleep delay)) = [].
Proof. induction n; [done|]. simpl. done. Qed.

(** Whatever the other coroutines are known to keep, the picker keeps. *)
Lemma get_idle_peer_rely (R : relation Downloader) :
  (∀ d, R d d) →
  (∀ d1 d2 d3, R d1 d2 → R d2 d3 → R d1 d3) →
  (∀ i d, R d (interleave i d)) →
  ∀ fuel w, R (self w) (self (world_of (get_idle_peer fuel w))).
Proof.
  intros Hrefl Htrans Hstep fuel. induction fuel as [|fuel IH]; intros w; simpl;
    destruct (idle_peers (self w)) as [|p ps] eqn:Hidle; simpl.
  - apply Hrefl.
  - unfold secrets_choice. destruct (_ !! _); apply Hrefl.
  - unfold wait_first_sleep, emit, suspend_cancellable. unfold_coro. simpl.
    destruct (token_triggered (tick w)); simpl; [apply Hstep|].
    match goal with |- context [get_idle_peer fuel ?w1] => specialize (IH w1) end.
    destruct (get_idle_peer fuel _); simpl in *;
      (eapply Htrans; [apply Hstep|exact IH]).
  - unfold secrets_choice. destruct (_ !! _); apply Hrefl.
Qed.

Lemma get_idle_peer_sends fuel w :
  sends (trace (world_of (get_idle_peer fuel w))) = sends (trace w).
Proof.
  revert w. induction fuel as [|fuel IH]; intros w; simpl;
    destruct (idle_peers (self w)) as [|p ps]; simpl.
  - done.
  - unfold secrets_choice. by destruct (_ !! _).
  - unfold wait_first_sleep, emit, suspend_cancellable. unfold_coro. simpl.
    destruct (token_triggered (tick w)); simpl.
    { by rewrite sends_app, app_nil_r. }
    match goal with |- context [get_idle_peer fuel ?w1] => specialize (IH w1) end.
    destruct (get_idle_peer fuel _); simpl in *;
      by rewrite IH, sends_app, app_nil_r.
  - unfold secrets_choice. by destruct (_ !! _).
Qed.

Lemma dispatched_sends fuel batches w o :
  dispatched fuel batches w o →
  ∃ sent, sends (trace (world_of o)) = sends (trace w) ++ sent ∧
    sent.*2 `prefix_of` batches ∧
    match o with
    | Returned _ _ => sent.*2 = batches
    | Raised e _ => e = OperationCancelled
    | Suspended _ => True
    end.
Proof.
  induction 1 as [w|batch batches w peer w1 w2 o Hpick Hidle Hbatch Hrest IH
                  |batch batches w e w1 Hpick|batch batches w w1 Hpick].
  - exists []. simpl. by rewrite app_nil_r.
  - destruct IH as (sent & Hsent & Hprefix & Ho).
    destruct Hbatch as (_ & _ & Htrace & _).
    pose proof (get_idle_peer_sends fuel w) as Hpicked. rewrite Hpick in Hpicked.
    simpl in Hpicked.
    exists ((peer, batch) :: sent). split_and!.
    + rewrite Hsent, Htrace, sends_app, Hpicked. simpl. by rewrite <- app_assoc.
    + rewrite fmap_cons. simpl. by apply prefix_cons.
    + destruct o; [|done..]. rewrite fmap_cons. simpl. by f_equal.
  - pose proof (get_idle_peer_sends fuel w) as Hpicked.
    pose proof (get_idle_peer_outcome fuel w) as Hout.
    rewrite Hpick in Hpicked, Hout. simpl in *.
    exists []. rewrite app_nil_r. split_and!; [done|apply prefix_nil|by destruct Hout].
  - pose proof (get_idle_peer_sends fuel w) as Hpicked.
    rewrite Hpick in Hpicked. simpl in *.
    exists []. rewrite app_nil_r. split_and!; [done|apply prefix_nil|done].
Qed.

Lemma partition_all_length {A} n (seq : list A) :
  0 < n → length (partition_all n seq) = (length seq + n - 1) `div` n.
Proof.
  intros Hn. set (batches := partition_all n seq).
  assert (∀ i, i < length batches ↔ i * n < length seq) as Hlen.
  { intros i. rewrite <- lookup_lt_is_Some. unfold batches.
    rewrite partition_all_lookup by done.
    case_decide; split; intros Hi; first [done | lia | by eexists | by destruct Hi]. }
  set (c := length batches) in *.
  assert (length seq ≤ c * n) as Hupper.
  { destruct (decide (length seq ≤ c * n)); [done|].
    assert (c < c) by (apply Hlen; lia). lia. }
  assert (c = 0 ∨ (c - 1) * n < length seq) as Hlower.
  { destruct c as [|c']; [by left|right]. apply Hlen. lia. }
  apply (Nat.div_unique _ _ _ (length seq + n - 1 - n * c)).
  - destruct Hlower as [Hc|Hlower]; [rewrite Hc in *; lia|nia].
  - destruct Hlower as [Hc|Hlower]; [rewrite Hc in *; lia|nia].
Qed.

Lemma request_nodes_sent fuel node_keys w :
  0 < MAX_STATE_FETCH →
  let o := request_nodes fuel node_keys w in
  ∃ sent, sends (trace (world_of o)) = sends (trace w) ++ sent ∧
    concat sent.*2 `prefix_of` node_keys ∧
    Forall (λ batch, 0 < length batch ≤ MAX_STATE_FETCH) sent.*2 ∧
    match o with
    | Returned _ _ =>
        concat sent.*2 = node_keys ∧
        length sent = (length node_keys + MAX_STATE_FETCH - 1) `div` MAX_STATE_FETCH
    | Raised e _ => e = OperationCancelled
    | Suspended _ => True
    end.
Proof.
  intros Hmax o.
  destruct (dispatched_sends fuel _ w o (request_batches_dispatched fuel _ w))
    as (sent & Hsent & [rest Hprefix] & Ho).
  pose proof (partition_all_concat MAX_STATE_FETCH node_keys Hmax) as Hconcat.
  pose proof (partition_all_sizes MAX_STATE_FETCH node_keys Hmax) as Hsizes.
  exists sent. split_and!; [done| | |].
  - rewrite <- Hconcat, Hprefix, concat_app. by apply prefix_app_r.
  - rewrite Hprefix in Hsizes. by apply Forall_app in Hsizes as [? _].
  - destruct o; [|done..]. split.
    + by rewrite Ho.
    + rewrite <- partition_all_length by done. by rewrite <- Ho, length_fmap.
Qed.

(** X5: the requests that [request_nodes] sends, in order, carry the
    hashes it was given, in order, without gap or repetition: a prefix of
    them while it is cancelled or still waiting for a peer, all of them
    once it has returned, in [ceil(len / MAX_STATE_FETCH)] requests, none
    empty and none longer than [MAX_STATE_FETCH]; and the only exception
    that leaves it is [OperationCancelled]. *)
Theorem request_nodes_sends fuel node_keys w :
  0 < MAX_STATE_FETCH →
  let o := request_nodes fuel node_keys w in
  ∃ sent, sends (trace (world_of o)) = sends (trace w) ++ sent ∧
    concat sent.*2 `prefix_of` node_keys ∧
    Forall (λ batch, 0 < length batch ≤ MAX_STATE_FETCH) sent.*2 ∧
    match o with
    | Returned _ _ =>
        concat sent.*2 = node_keys ∧
        length sent = (length node_keys + MAX_STATE_FETCH - 1) `div` MAX_STATE_FETCH
    | Raised e _ => e = OperationCancelled
    | Suspended _ => True
    end.
Proof. apply request_nodes_sent. Qed.
End dispatcher_facts.

(** ** What the request dispatcher leaves in the tables *)

Section dispatcher_table_facts.
Import StateDownloader Service.
Context `{Ext : Externals} `{RT : !Runtime}.
Implicit Types (w : World) (d : Downloader) (peer : Peer) (fuel : nat).
Implicit Types (batches : list (list bytes)) (node_keys : list bytes).

Lemma dispatched_pending fuel batches w o :
  (∀ i d, _pending_nodes (interleave i d) = _pending_nodes d) →
  dispatched fuel batches w o →
  (∀ node_key, is_Some (_pending_nodes (self w) !! node_key) →
               is_Some (_pending_nodes (self (world_of o)) !! node_key)) ∧
  match o with
  | Returned _ w' =>
      (∀ node_key, node_key ∈ concat batches →
                   ∃ i, _pending_nodes (self w') !! node_key = Some (clock i)) ∧
      (∀ node_key, node_key ∉ concat batches →
                   _pending_nodes (self w') !! node_key =
                   _pending_nodes (self w) !! node_key)
  | _ => True
  end.
Proof.
  intros Hkeep.
  assert (∀ fuel w, _pending_nodes (self (world_of (get_idle_peer fuel w))) =
                    _pending_nodes (self w)) as Hpick.
  { intros fuel' w'. symmetry.
    apply (get_idle_peer_rely (λ d d', _pending_nodes d = _pending_nodes d')).
    - done.
    - by intros ??? -> ->.
    - intros i d. by rewrite Hkeep. }
  induction 1 as [w|batch batches w peer w1 w2 o Hrun Hidle Hbatch Hrest IH
                  |batch batches w e w1 Hrun|batch batches w w1 Hrun].
  - simpl. split_and!; try done. intros k Hk. by apply elem_of_nil in Hk.
  - specialize (Hpick fuel w). rewrite Hrun in Hpick. simpl in Hpick.
    destruct Hbatch as (Hpending & _). destruct IH as [Hmono Ho].
    split.
    + intros k Hk. apply Hmono. rewrite Hpending.
      case_decide; [by eexists|]. by rewrite Hpick.
    + destruct o as [[] w'|e w'|w']; [|done..]. destruct Ho as [Hin Hout].
      split.
      * intros k Hk. simpl in Hk. apply elem_of_app in Hk.
        destruct (decide (k ∈ concat batches)) as [Hlater|Hlater]; [by apply Hin|].
        destruct Hk as [Hk|Hk]; [|done].
        exists (tick w1). rewrite Hout, Hpending; [|done]. by rewrite decide_True.
      * intros k Hk. simpl in Hk. apply not_elem_of_app in Hk as [Hk1 Hk2].
        rewrite Hout, Hpending; [|done]. rewrite decide_False; [|done]. by rewrite Hpick.
  - specialize (Hpick fuel w). rewrite Hrun in Hpick. simpl in *.
    split; [|done]. intros k. by rewrite Hpick.
  - specialize (Hpick fuel w). rewrite Hrun in Hpick. simpl in *.
    split; [|done]. intros k. by rewrite Hpick.
Qed.

(** X6: if the other coroutines leave the in-flight table alone while
    [request_nodes] waits for peers, then once it has returned every hash
    it was given is in flight, stamped with a reading of the clock, and
    the entry of every other hash is as before. *)
Theorem request_nodes_records_every_hash fuel node_keys w w' :
  (∀ i d, _pending_nodes (interleave i d) = _pending_nodes d) →
  0 < MAX_STATE_FETCH →
  request_nodes fuel node_keys w = Returned tt w' →
  (∀ node_key, node_key ∈ node_keys →
               ∃ i, _pending_nodes (self w') !! node_key = Some (clock i)) ∧
  (∀ node_key, node_key ∉ node_keys →
               _pending_nodes (self w') !! node_key =
               _pending_nodes (self w) !! node_key).
Proof.
  intros Hkeep Hmax Hrun.
  pose proof (dispatched_pending fuel _ w _ Hkeep
                (request_batches_dispatched fuel
                   (partition_all MAX_STATE_FETCH node_keys) w)) as [_ Ho].
  unfold request_nodes in Hrun. rewrite Hrun in Ho.
  by rewrite partition_all_concat in Ho.
Qed.

Lemma dispatched_peers fuel batches w o :
  (∀ i d peer, is_Some (_peers_with_pending_requests d !! peer) →
               is_Some (_peers_with_pending_requests (interleave i d) !! peer)) →
  dispatched fuel batches w o →
  ∃ sent, sends (trace (world_of o)) = sends (trace w) ++ sent ∧
    NoDup sent.*1 ∧
    ∀ peer, peer ∈ sent.*1 → _peers_with_pending_requests (self w) !! peer = None.
Proof.
  intros Hkeep.
  assert (∀ fuel w peer,
    is_Some (_peers_with_pending_requests (self w) !! peer) →
    is_Some (_peers_with_pending_requests (self (world_of (get_idle_peer fuel w))) !! peer))
    as Hpick.
  { intros fuel' w'.
    apply (get_idle_peer_rely
             (λ d d', ∀ peer, is_Some (_peers_with_pending_requests d !! peer) →
                              is_Some (_peers_with_pending_requests d' !! peer))).
    - done.
    - intros d1 d2 d3 H12 H23 peer Hp. by apply H23, H12.
    - intros i d peer. apply Hkeep. }
  induction 1 as [w|batch batches w peer w1 w2 o Hrun Hidle Hbatch Hrest IH
                  |batch batches w e w1 Hrun|batch batches w w1 Hrun].
  - exists []. simpl. rewrite app_nil_r. split_and!; [done|constructor|].
    intros peer Hp. by apply elem_of_nil in Hp.
  - specialize (Hpick fuel w). rewrite Hrun in Hpick. simpl in Hpick.
    pose proof (get_idle_peer_sends fuel w) as Hsends. rewrite Hrun in Hsends.
    simpl in Hsends.
    destruct Hbatch as (_ & Hbusy & Htrace & _).
    destruct IH as (sent & Hsent & Hnodup & Hfree).
    apply elem_of_idle_peers in Hidle as [_ Hidle].
    assert (∀ p, _peers_with_pending_requests (self w1) !! p = None →
                 _peers_with_pending_requests (self w) !! p = None) as Hback.
    { intros p Hp. apply eq_None_not_Some. intros Hsome%Hpick.
      rewrite Hp in Hsome. by destruct Hsome. }
    exists ((peer, batch) :: sent). split_and!.
    + rewrite Hsent, Htrace, sends_app, Hsends. simpl. by rewrite <- app_assoc.
    + rewrite fmap_cons. simpl. apply NoDup_cons. split; [|done].
      intros Hin%Hfree. rewrite Hbusy, lookup_insert_eq in Hin. done.
    + intros p. rewrite fmap_cons. simpl. intros [->|Hin]%elem_of_cons.
      * by apply Hback.
      * apply Hback. apply Hfree in Hin as Hnone. rewrite Hbusy in Hnone.
        rewrite lookup_insert in Hnone. by case_decide.
  - pose proof (get_idle_peer_sends fuel w) as Hsends. rewrite Hrun in Hsends.
    exists []. simpl in *. rewrite app_nil_r. split_and!; [done|constructor|].
    intros peer Hp. by apply elem_of_nil in Hp.
  - pose proof (get_idle_peer_sends fuel w) as Hsends. rewrite Hrun in Hsends.
    exists []. simpl in *. rewrite app_nil_r. split_and!; [done|constructor|].
    intros peer Hp. by apply elem_of_nil in Hp.
Qed.

(** X7: if the other coroutines clear no entry of the peer-busy table
    while [request_nodes] runs, then no peer gets two requests of the same
    call, and no request goes to a peer that was busy when the call
    started. *)
Theorem request_nodes_spreads_over_peers fuel node_keys w :
  (∀ i d peer, is_Some (_peers_with_pending_requests d !! peer) →
               is_Some (_peers_with_pending_requests (interleave i d) !! peer)) →
  ∃ sent,
    sends (trace (world_of (request_nodes fuel node_keys w))) = sends (trace w) ++ sent ∧
    NoDup sent.*1 ∧
    ∀ peer, peer ∈ sent.*1 → _peers_with_pending_requests (self w) !! peer = None.
Proof.
  intros Hkeep.
  apply (dispatched_peers fuel (partition_all MAX_STATE_FETCH node_keys)); [done|].
  apply request_batches_dispatched.
Qed.
End dispatcher_table_facts.

(** ** More on the reply handler *)

Section handler_facts.
Import StateDownloader Service.
Context `{Ext : Externals} `{RT : !Runtime}.
Implicit Types (w : World) (d : Downloader) (peer : Peer) (fuel : nat).
Implicit Types (msg pre post : list bytes) (node_keys : list bytes).

(** X8: an empty [NodeData] reply frees the peer and does nothing else:
    no blob is counted or handed to the scheduler and the in-flight table
    is not touched, so what was asked of that peer stays in flight until
    it times out. *)
Theorem handle_empty_node_data peer w :
  _handle_msg peer NodeData [] w =
  Returned tt {| self := interleave (tick w) (peer_cleared peer (self w));
                 tick := S (tick w);
                 trace := trace w ++ [EvHash []] |}.
Proof. by rewrite handle_node_data_run. Qed.



Lemma sends_processed msg : sends (processed_under_own_hash <$> msg) = [].
Proof. by induction msg. Qed.

(** X10: handling a [NodeData] reply sends no request and marks no peer
    busy, whatever the scheduler does with the blobs: the requests
    recorded are those recorded before, and the peer-busy table is the one
    found after the hashing, with the entry of the sender already
    cleared. *)
Theorem handle_node_data_never_sends peer msg w :
  let o := _handle_msg peer NodeData msg w in
  sends (trace (world_of o)) = sends (trace w) ∧
  _peers_with_pending_requests (self (world_of o)) =
    _peers_with_pending_requests (interleave (tick w) (peer_cleared peer (self w))).
Proof.
  intros o. unfold o. rewrite handle_node_data_run.
  match goal with |- context [for_each _ process_node ?w1] =>
    destruct (process_nodes_frame msg w1) as (n & _ & Htr & _ & _ & Hbusy & _)
  end.
  split; [|done].
  rewrite Htr. simpl. by rewrite !sends_app, sends_processed, !app_nil_r.
Qed.


End handler_facts.

(** ** More on the timeout sweeper *)

Section sweeper_facts.
Import StateDownloader Service.
Context `{Ext : Externals} `{RT : !Runtime} `{SS : ServiceState}.
Implicit Types (w : World) (d : Downloader) (peer : Peer) (fuel passes : nat).
Implicit Types (now oldest : Time).

Lemma retry_timedout_pass_run fuel w :
  let now := clock (tick w) in
  let collected := collect_timed_out now (_pending_nodes (self w)) in
  retry_timedout_pass fuel w =
    after_redispatch collected.1
      (request_nodes fuel collected.2
         {| self := set_total_timeouts (_total_timeouts (self w) + length collected.2)
                      (set_peers_with_pending_requests
                         (drop_timed_out_peers now (_peers_with_pending_requests (self w)))
                         (self w));
            tick := S (tick w); trace := trace w |}).
Proof.
  intros now collected.
  unfold retry_timedout_pass. unfold_coro. unfold time_time, update, get_self. simpl.
  fold now. fold collected. destruct collected as [oldest timed_out].
  by rewrite retry_and_sleep_run.
Qed.

Lemma sleep_until_due_run oldest w :
  sleep_until_due oldest w =
  Returned (if token_triggered (S (tick w)) then Break else Continue)
    {| self := interleave (S (tick w)) (self w);
       tick := S (S (tick w));
       trace := trace w ++ [EvSleep (time_sub (time_add oldest (time_of_Q _reply_timeout))
                                              (clock (tick w)))] |}.
Proof.
  unfold sleep_until_due, try_except, wait_first_sleep, emit, suspend_cancellable,
    time_time.
  unfold_coro. simpl. by destruct (token_triggered (S (tick w))).
Qed.

Lemma after_redispatch_never_raises oldest (o : Outcome unit) :
  match o with Raised e _ => e = OperationCancelled | _ => True end →
  match after_redispatch oldest o with Raised _ _ => False | _ => True end.
Proof.
  destruct o as [[] w|e w|w]; simpl; [|intros ->; by rewrite decide_True|done].
  intros _. by rewrite sleep_until_due_run.
Qed.

Lemma request_nodes_raises_cancelled fuel (node_keys : list bytes) w :
  match request_nodes fuel node_keys w with
  | Raised e _ => e = OperationCancelled
  | _ => True
  end.
Proof.
  destruct (dispatched_sends fuel _ w _
              (request_batches_dispatched fuel (partition_all MAX_STATE_FETCH node_keys) w))
    as (sent & _ & _ & Ho).
  unfold request_nodes. by destruct (for_each _ _ w).
Qed.

Lemma retry_timedout_pass_never_raises fuel w :
  match retry_timedout_pass fuel w with Raised _ _ => False | _ => True end.
Proof.
  rewrite retry_timedout_pass_run. apply after_redispatch_never_raises.
  apply request_nodes_raises_cancelled.
Qed.

(** X12: no exception leaves the sweeper.  The cancellation of either of
    its two waits, for an idle peer and for the next pass, ends the loop
    quietly, and nothing else in it raises. *)
Theorem sweeper_never_raises passes fuel w :
  match _periodically_retry_timedout passes fuel w with
  | Raised _ _ => False
  | _ => True
  end.
Proof.
  revert w. induction passes as [|passes IH]; intros w; simpl;
    destruct (is_running (tick w)); try done.
  unfold_coro.
  pose proof (retry_timedout_pass_never_raises fuel w) as Hpass.
  destruct (retry_timedout_pass fuel w) as [[] w'|e w'|w']; try done.
  apply IH.
Qed.

(** X13: a pass that finds no in-flight entry older than
    [_reply_timeout], the empty table included, sends nothing and leaves
    the timeout counter alone: it drops the peers that timed out, reads
    the clock a second time and sleeps once, leaving the loop if that
    sleep is cancelled. *)
Theorem retry_pass_without_timeouts fuel w :
  (∀ node_key req_time,
     _pending_nodes (self w) !! node_key = Some req_time →
     timed_out_at (clock (tick w)) req_time = false) →
  let now := clock (tick w) in
  retry_timedout_pass fuel w =
  Returned (if token_triggered (S (S (tick w))) then Break else Continue)
    {| self := interleave (S (S (tick w)))
                 (set_peers_with_pending_requests
                    (drop_timed_out_peers now (_peers_with_pending_requests (self w)))
                    (self w));
       tick := S (S (S (tick w)));
       trace := trace w ++
         [EvSleep (time_sub
                     (time_add (collect_timed_out now (_pending_nodes (self w))).1
                               (time_of_Q _reply_timeout))
                     (clock (S (tick w))))] |}.
Proof.
  intros Hfresh now. rewrite retry_timedout_pass_run. fold now.
  assert ((collect_timed_out now (_pending_nodes (self w))).2 = []) as Hnone.
  { destruct (collect_timed_out now _).2 as [|k ks] eqn:Hkeys; [done|].
    assert (k ∈ (collect_timed_out now (_pending_nodes (self w))).2) as Hin
      by (rewrite Hkeys; by left).
    apply elem_of_collect_timed_out in Hin as (t & Hlook & Hout).
    apply Hfresh in Hlook. unfold now in Hout. congruence. }
  rewrite Hnone, request_nodes_nil. simpl.
  assert (∀ d busy,
    set_total_timeouts (_total_timeouts d + 0) (set_peers_with_pending_requests busy d) =
    set_peers_with_pending_requests busy d) as Hsame.
  { intros [] ?. unfold set_total_timeouts. simpl. by rewrite Nat.add_0_r. }
  rewrite Hsame. by rewrite sleep_until_due_run.
Qed.

Lemma oldest_request_fold now (items : list (bytes * Time)) oldest timed_out :
  (∀ a, time_lt a a = false) →
  (∀ a b c, time_lt a b = true → time_lt b c = true → time_lt a c = true) →
  let result :=
    (foldl (λ '(oldest_request_time, timed_out) '(node_key, req_time),
              if timed_out_at now req_time then
                (oldest_request_time, timed_out ++ [node_key])
              else if time_lt req_time oldest_request_time then
                (req_time, timed_out)
              else (oldest_request_time, timed_out))
           (oldest, timed_out) items).1 in
  (result = oldest ∨ time_lt result oldest = true) ∧
  (result = oldest ∨
   ∃ node_key, (node_key, result) ∈ items ∧ timed_out_at now result = false) ∧
  (∀ node_key req_time, (node_key, req_time) ∈ items →
     timed_out_at now req_time = false → time_lt req_time result = false).
Proof.
  intros Hirrefl Htrans. revert oldest timed_out.
  induction items as [|[k t] items IH]; intros oldest timed_out; simpl.
  { split_and!; [by left|by left|]. intros ?? Hin. by apply elem_of_nil in Hin. }
  destruct (timed_out_at now t) eqn:Hout.
  - destruct (IH oldest (timed_out ++ [k])) as (Hle & Hin & Hmin).
    split_and!; [done| |].
    + destruct Hin as [?|(k' & ? & ?)]; [by left|right]. exists k'. split; [by right|done].
    + intros k' t' [[= -> ->]|Hin']%elem_of_cons Hfresh; [congruence|by eapply Hmin].
  - destruct (time_lt t oldest) eqn:Hlt.
    + destruct (IH t timed_out) as (Hle & Hin & Hmin).
      split_and!.
      * right. destruct Hle as [->|Hle]; [done|by eapply Htrans].
      * right. destruct Hin as [->|(k' & ? & ?)].
        -- exists k. split; [by left|done].
        -- exists k'. split; [by right|done].
      * intros k' t' [[= -> ->]|Hin']%elem_of_cons Hfresh; [|by eapply Hmin].
        destruct Hle as [->|Hle]; [by apply Hirrefl|].
        apply not_true_is_false. intros Hback.
        pose proof (Htrans _ _ _ Hback Hle) as Habs. by rewrite Hirrefl in Habs.
    + destruct (IH oldest timed_out) as (Hle & Hin & Hmin).
      split_and!; [done| |].
      * destruct Hin as [?|(k' & ? & ?)]; [by left|right]. exists k'. split; [by right|done].
      * intros k' t' [[= -> ->]|Hin']%elem_of_cons Hfresh; [|by eapply Hmin].
        destruct Hle as [->|Hle]; [done|].
        apply not_true_is_false. intros Hback.
        pose proof (Htrans _ _ _ Hback Hle) as Habs. by rewrite Hlt in Habs.
Qed.

(** X14: when [<] on the readings of the clock is irreflexive and
    transitive, the time from which a pass computes its sleep is [now] or
    the timestamp of an in-flight entry that has not timed out, it is not
    later than [now], and no in-flight entry that has not timed out is
    older. *)
Theorem oldest_request_time_is_oldest now (pending : gmap bytes Time) :
  (∀ a, time_lt a a = false) →
  (∀ a b c, time_lt a b = true → time_lt b c = true → time_lt a c = true) →
  let oldest := (collect_timed_out now pending).1 in
  (oldest = now ∨ time_lt oldest now = true) ∧
  (oldest = now ∨
   ∃ node_key, pending !! node_key = Some oldest ∧ timed_out_at now oldest = false) ∧
  (∀ node_key req_time, pending !! node_key = Some req_time →
     timed_out_at now req_time = false → time_lt req_time oldest = false).
Proof.
  intros Hirrefl Htrans oldest.
  destruct (oldest_request_fold now (map_to_list pending) now [] Hirrefl Htrans)
    as (Hle & Hin & Hmin).
  split_and!; [done| |].
  - destruct Hin as [?|(k & Hk%elem_of_map_to_list & ?)]; [by left|right]. by exists k.
  - intros k t Hk%elem_of_map_to_list Hfresh. by eapply Hmin.
Qed.

(** X15: a pass of the sweeper takes no hash out of the in-flight table:
    if the other coroutines leave that table alone during the pass, every
    hash in flight before the pass is in flight after it, however the
    pass ends. *)
Theorem retry_pass_keeps_in_flight fuel w node_key :
  (∀ i d, _pending_nodes (interleave i d) = _pending_nodes d) →
  is_Some (_pending_nodes (self w) !! node_key) →
  is_Some (_pending_nodes (self (world_of (retry_timedout_pass fuel w))) !! node_key).
Proof.
  intros Hkeep Hin. rewrite retry_timedout_pass_run.
  match goal with |- context [request_nodes fuel ?keys ?w1] =>
    pose proof (dispatched_pending fuel _ w1 _ Hkeep
                  (request_batches_dispatched fuel
                     (partition_all MAX_STATE_FETCH keys) w1)) as [Hmono _];
    specialize (Hmono node_key Hin);
    change (for_each (partition_all MAX_STATE_FETCH keys) (request_batch fuel) w1)
      with (request_nodes fuel keys w1) in Hmono;
    destruct (request_nodes fuel keys w1) as [[] w'|e w'|w']
  end; simpl in *.
  - rewrite sleep_until_due_run. simpl. by rewrite Hkeep.
  - by destruct (decide (e = OperationCancelled)).
  - done.
Qed.
End sweeper_facts.

(** ** The main loop *)

Section main_loop_facts.
Import StateDownloader Service.
Context `{Ext : Externals} `{RT : !Runtime} `{SQ : !SchedulerQueue}.
Implicit Types (w : World) (d : Downloader) (fuel iterations : nat).

Lemma wait_first_sleep_run (delay : Time) w :
  wait_first_sleep delay w =
  (if token_triggered (tick w)
   then Raised OperationCancelled
   else Returned tt)
    {| self := interleave (tick w) (self w); tick := S (tick w);
       trace := trace w ++ [EvSleep delay] |}.
Proof.
  unfold wait_first_sleep, emit, suspend_cancellable. unfold_coro. simpl.
  by destruct (token_triggered (tick w)).
Qed.

Lemma sync_iteration_sent fuel w :
  0 < MAX_STATE_FETCH →
  let o := sync_iteration fuel w in
  ∃ sent, sends (trace (world_of o)) = sends (trace w) ++ sent ∧
    Forall (λ batch, 0 < length batch ≤ MAX_STATE_FETCH) sent.*2 ∧
    match o with Raised e _ => e = OperationCancelled | _ => True end.
Proof.
  intros Hmax. unfold sync_iteration, scheduler_next_batch. unfold_coro.
  rewrite wait_first_sleep_run.
  destruct (token_triggered (tick w)); simpl.
  { exists []. by rewrite sends_app, !app_nil_r. }
  destruct (next_batch _ _) as [[|request requests] sched]; simpl.
  - rewrite wait_first_sleep_run. simpl.
    exists []. destruct (token_triggered (S (tick w))); simpl;
      by rewrite !sends_app, !app_nil_r.
  - match goal with |- context [request_nodes fuel ?keys ?w1] =>
      destruct (request_nodes_sent fuel keys w1 Hmax) as (sent & Hsent & _ & Hsizes & Ho)
    end.
    exists sent. simpl in Hsent. rewrite sends_app, app_nil_r in Hsent.
    split_and!; [done|done|]. by destruct (request_nodes _ _ _).
Qed.

Lemma sync_loop_sent iterations fuel w :
  0 < MAX_STATE_FETCH →
  let o := sync_loop iterations fuel w in
  ∃ sent, sends (trace (world_of o)) = sends (trace w) ++ sent ∧
    Forall (λ batch, 0 < length batch ≤ MAX_STATE_FETCH) sent.*2 ∧
    match o with
    | Returned _ w' => has_pending_requests (scheduler (self w')) = false
    | Raised e _ => e = OperationCancelled
    | Suspended _ => True
    end.
Proof.
  intros Hmax. revert w. induction iterations as [|iterations IH]; intros w; simpl;
    destruct (has_pending_requests (scheduler (self w))) eqn:Hpending; simpl;
    try (exists []; by rewrite app_nil_r).
  unfold_coro.
  destruct (sync_iteration_sent fuel w Hmax) as (sent & Hsent & Hsizes & Ho).
  destruct (sync_iteration fuel w) as [[] w1|e w1|w1]; simpl in *;
    [|by exists sent..].
  destruct (IH w1) as (sent' & Hsent' & Hsizes' & Ho').
  exists (sent ++ sent'). split_and!.
  - by rewrite Hsent', Hsent, app_assoc.
  - rewrite fmap_app. by apply Forall_app.
  - done.
Qed.



(** X17: the only exception that leaves [_run] is [OperationCancelled],
    and every request that [_run] sends carries at least one and at most
    [MAX_STATE_FETCH] hashes. *)
Theorem run_raises_only_cancelled iterations fuel w :
  0 < MAX_STATE_FETCH →
  let o := _run iterations fuel w in
  (∃ sent, sends (trace (world_of o)) = sends (trace w) ++ sent ∧
           Forall (λ batch, 0 < length batch ≤ MAX_STATE_FETCH) sent.*2) ∧
  match o with Raised e _ => e = OperationCancelled | _ => True end.
Proof.
  intros Hmax. unfold _run, time_time. unfold_coro.
  destruct (sync_loop_sent iterations fuel (next_tick w) Hmax) as (sent & Hsent & Hsizes & Ho).
  destruct (sync_loop iterations fuel (next_tick w)) as [[] w1|e w1|w1]; simpl in *;
    (split; [by exists sent|done]).
Qed.

(** X18: when requests are pending and the cancel token is triggered,
    [_run] raises [OperationCancelled] out of its first yield: the
    scheduler is not asked for a batch and nothing is sent. *)
Theorem run_cancelled_at_first_yield iterations fuel w :
  has_pending_requests (scheduler (self w)) = true →
  token_triggered (S (tick w)) = true →
  _run (S iterations) fuel w =
  Raised OperationCancelled
    {| self := interleave (S (tick w)) (self w);
       tick := S (S (tick w));
       trace := trace w ++ [EvSleep (time_of_Q 0)] |}.
Proof.
  intros Hpending Htoken. unfold _run, time_time. unfold_coro. simpl.
  rewrite Hpending. unfold sync_iteration. unfold_coro.
  rewrite wait_first_sleep_run. simpl. by rewrite Htoken.
Qed.
End main_loop_facts.

(** ** The worker pool, where it is sized as intended *)

(** X19: when the number of CPUs is indeterminable or at least two, the
    pool gets [max(1, cpus - 1)] workers, hence at least one, and fewer
    than there are CPUs when their number is known. *)
Theorem cpu_count_leaves_one_cpu (os_cpu_count : option Z) :
  os_cpu_count ≠ Some 1%Z →
  from_option (λ n, 1 ≤ n)%Z True os_cpu_count →
  (Executor.cpu_count os_cpu_count =
     from_option (λ n, 1 `max` (n - 1))%Z 1%Z os_cpu_count ∧
   1 ≤ Executor.cpu_count os_cpu_count ∧
   from_option (λ n, Executor.cpu_count os_cpu_count < n) True os_cpu_count)%Z.
Proof.
  destruct os_cpu_count as [n|]; simpl; [|done].
  intros Hne Hpos. assert (n ≠ 1%Z) by congruence. lia.
Qed.

(** ** The further properties on the small instance *)

Section service_scenario_facts.
Import StateDownloader Service Scenario ServiceScenario.

Lemma cpu_count_leaves_one_cpu_witness :
  Some 4%Z ≠ Some 1%Z ∧ (1 ≤ 4)%Z ∧ Executor.cpu_count (Some 4%Z) = 3%Z.
Proof.
  split; [discriminate|]. split; [lia|].
  destruct (cpu_count_leaves_one_cpu (Some 4%Z)) as (Hcount & _); [discriminate|simpl; lia|].
  rewrite Hcount. reflexivity.
Defined.

(** Both peers are busy; the reply handler frees them during the first
    sleep of the picker. *)
Lemma get_idle_peer_wakes_up_witness :
  idle_peers (self all_busy_world) = [] ∧
  token_triggered (Runtime := freeing_runtime) (tick all_busy_world) = false ∧
  idle_peers (interleave (Runtime := freeing_runtime) (tick all_busy_world)
                (self all_busy_world)) ≠ [] ∧
  ∃ peer w', get_idle_peer (RT := freeing_runtime) 1 all_busy_world = Returned peer w' ∧
    trace w' = [@EvSleep toy_externals 0%Z].
Proof.
  split; [reflexivity|]. split; [reflexivity|]. split; [discriminate|].
  destruct (get_idle_peer_wakes_up (RT := freeing_runtime) 0 all_busy_world)
    as (peer & w' & Hrun & _ & _ & Htrace); [reflexivity|reflexivity|discriminate|].
  exists peer, w'. split; [exact Hrun|]. rewrite Htrace. reflexivity.
Defined.

Lemma get_idle_peer_cancelled_witness :
  idle_peers (self all_busy_world) = [] ∧
  token_triggered (Runtime := cancelled_runtime) (tick all_busy_world) = true ∧
  ∃ w', get_idle_peer (RT := cancelled_runtime) 1 all_busy_world
        = Raised OperationCancelled w'.
Proof.
  split; [reflexivity|]. split; [reflexivity|].
  destruct (get_idle_peer_cancelled (RT := cancelled_runtime) 0 all_busy_world)
    as (w' & Hrun & _); [reflexivity|reflexivity|].
  by exists w'.
Defined.

Lemma get_idle_peer_waits_forever_witness :
  (∀ i d, interleave (Runtime := quiet_runtime) i d = d) ∧
  (∀ i, token_triggered (Runtime := quiet_runtime) i = false) ∧
  idle_peers (self all_busy_world) = [] ∧
  ∃ w', get_idle_peer (RT := quiet_runtime) 5 all_busy_world = Suspended w' ∧
        self w' = self all_busy_world.
Proof.
  split; [done|]. split; [done|]. split; [reflexivity|].
  apply (get_idle_peer_waits_forever (RT := quiet_runtime) 5 all_busy_world);
    [done|done|reflexivity].
Defined.

Lemma request_nodes_sends_witness :
  0 < MAX_STATE_FETCH (Externals := toy_externals) ∧
  ∃ sent,
    sends (trace (world_of (request_nodes (RT := quiet_runtime) 0
                              [[x01]; [x02]; [x03]] idle_world))) = sent ∧
    concat sent.*2 = [[x01]; [x02]; [x03]] ∧ length sent = 2.
Proof.
  split; [simpl; lia|].
  destruct (request_nodes_sends (RT := quiet_runtime) 0 [[x01]; [x02]; [x03]] idle_world)
    as (sent & Hsent & _ & _ & Ho); [simpl; lia|].
  exists sent. split; [exact Hsent|].
  assert (request_nodes (RT := quiet_runtime) 0 [[x01]; [x02]; [x03]] idle_world =
          Returned tt (world_of (request_nodes (RT := quiet_runtime) 0
                                   [[x01]; [x02]; [x03]] idle_world))) as Hrun
    by reflexivity.
  rewrite Hrun in Ho. destruct Ho as [Hall Hlen]. split; [exact Hall|].
  rewrite Hlen. reflexivity.
Defined.

Lemma request_nodes_records_every_hash_witness :
  (∀ i d, _pending_nodes (interleave (Runtime := quiet_runtime) i d) = _pending_nodes d) ∧
  0 < MAX_STATE_FETCH (Externals := toy_externals) ∧
  ∃ w', request_nodes (RT := quiet_runtime) 0 [[x01]; [x02]; [x03]] idle_world
        = Returned tt w' ∧
    (∀ node_key, node_key ∈ [[x01]; [x02]; [x03]] →
       ∃ i, _pending_nodes (self w') !! node_key = Some (quiet_clock i)).
Proof.
  split; [done|]. split; [simpl; lia|].
  exists (world_of (request_nodes (RT := quiet_runtime) 0 [[x01]; [x02]; [x03]] idle_world)).
  split; [reflexivity|].
  apply (request_nodes_records_every_hash (RT := quiet_runtime) 0
           [[x01]; [x02]; [x03]] idle_world); [done|simpl; lia|reflexivity].
Defined.

Lemma request_nodes_spreads_over_peers_witness :
  (∀ i d peer,
     is_Some (_peers_with_pending_requests d !! peer) →
     is_Some (_peers_with_pending_requests
                (interleave (Runtime := quiet_runtime) i d) !! peer)) ∧
  ∃ sent,
    sends (trace (world_of (request_nodes (RT := quiet_runtime) 0
                              [[x01]; [x02]; [x03]] idle_world))) = sent ∧
    NoDup sent.*1.
Proof.
  split; [done|].
  destruct (request_nodes_spreads_over_peers (RT := quiet_runtime) 0
              [[x01]; [x02]; [x03]] idle_world) as (sent & Hsent & Hnodup & _); [done|].
  by exists sent.
Defined.
End service_scenario_facts.

Section service_scenario_more_facts.
Import StateDownloader Service Scenario ServiceScenario.




(** At second 100 the only request in flight is ten seconds old. *)
Lemma retry_pass_without_timeouts_witness :
  (∀ node_key req_time,
     _pending_nodes (self all_busy_world) !! node_key = Some req_time →
     timed_out_at (Ext := toy_externals) (quiet_clock (tick all_busy_world)) req_time
     = false) ∧
  ∃ w', retry_timedout_pass (RT := quiet_runtime) 0 all_busy_world = Returned Continue w' ∧
    trace w' = [@EvSleep toy_externals 9%Z] ∧
    _total_timeouts (self w') = 0.
Proof.
  assert (∀ node_key req_time,
     _pending_nodes (self all_busy_world) !! node_key = Some req_time →
     timed_out_at (Ext := toy_externals) (quiet_clock (tick all_busy_world)) req_time
     = false) as Hfresh.
  { intros k t Hlook.
    change (<[ [x01] := 90%Z ]> (∅ : gmap bytes Z) !! k = Some t) in Hlook.
    apply lookup_insert_Some in Hlook as [[_ <-]|[_ Hlook]]; [reflexivity|].
    by rewrite lookup_empty in Hlook. }
  split; [exact Hfresh|].
  eexists. split.
  - rewrite (retry_pass_without_timeouts (RT := quiet_runtime) 0 all_busy_world Hfresh).
    reflexivity.
  - split; reflexivity.
Defined.

Lemma oldest_request_time_is_oldest_witness :
  (∀ a, time_lt (Externals := toy_externals) a a = false) ∧
  (∀ a b c, time_lt (Externals := toy_externals) a b = true →
            time_lt (Externals := toy_externals) b c = true →
            time_lt (Externals := toy_externals) a c = true) ∧
  (collect_timed_out (Ext := toy_externals) 100%Z
     (_pending_nodes (self busy_world))).1 = 90%Z ∧
  ∀ node_key req_time,
    _pending_nodes (self busy_world) !! node_key = Some req_time →
    timed_out_at (Ext := toy_externals) 100%Z req_time = false →
    time_lt (Externals := toy_externals) req_time 90%Z = false.
Proof.
  assert (∀ a, time_lt (Externals := toy_externals) a a = false) as Hirrefl.
  { intros a. apply Z.ltb_irrefl. }
  assert (∀ a b c, time_lt (Externals := toy_externals) a b = true →
                   time_lt (Externals := toy_externals) b c = true →
                   time_lt (Externals := toy_externals) a c = true) as Htrans.
  { intros a b c Hab%Z.ltb_lt Hbc%Z.ltb_lt. apply Z.ltb_lt. lia. }
  split; [exact Hirrefl|]. split; [exact Htrans|]. split; [reflexivity|].
  destruct (oldest_request_time_is_oldest (Ext := toy_externals) 100%Z
              (_pending_nodes (self busy_world)) Hirrefl Htrans) as (_ & _ & Hmin).
  exact Hmin.
Defined.

Lemma retry_pass_keeps_in_flight_witness :
  (∀ i d, _pending_nodes (interleave (Runtime := quiet_runtime) i d) = _pending_nodes d) ∧
  is_Some (_pending_nodes (self busy_world) !! [x02]) ∧
  is_Some (_pending_nodes
             (self (world_of (retry_timedout_pass (RT := quiet_runtime) 0 busy_world)))
           !! [x02]).
Proof.
  split; [done|]. split; [by eexists|].
  apply (retry_pass_keeps_in_flight (RT := quiet_runtime) 0 busy_world [x02]);
    [done|by eexists].
Defined.


Lemma run_raises_only_cancelled_witness :
  0 < MAX_STATE_FETCH (Externals := toy_externals) ∧
  match _run (RT := cancelled_runtime) (SQ := toy_queue) 1 0 idle_world with
  | Raised e _ => e = OperationCancelled
  | _ => True
  end.
Proof.
  split; [simpl; lia|].
  apply (run_raises_only_cancelled (RT := cancelled_runtime) (SQ := toy_queue)
           1 0 idle_world). simpl. lia.
Defined.

Lemma run_cancelled_at_first_yield_witness :
  has_pending_requests (SchedulerQueue := toy_queue) (scheduler (self idle_world)) = true ∧
  token_triggered (Runtime := cancelled_runtime) (S (tick idle_world)) = true ∧
  ∃ w', _run (RT := cancelled_runtime) (SQ := toy_queue) 1 0 idle_world
        = Raised OperationCancelled w' ∧
    sends (trace w') = [].
Proof.
  split; [reflexivity|]. split; [reflexivity|].
  eexists. split.
  - apply (run_cancelled_at_first_yield (RT := cancelled_runtime) (SQ := toy_queue)
             0 0 idle_world); reflexivity.
  - reflexivity.
Defined.
End service_scenario_more_facts.
